(** * Checkout-data CSV import: a shallow embedding and its properties

    The development embeds the two ingestion paths of the dashboard:

    - [Client]: [src/lib/importCheckoutData.ts], the direct-call import
      (month tokens split on [_], one bulk insert, errors returned as a
      result object);
    - [EdgeFn]: the deduplicating edge function ([importCheckoutData] and
      the [Deno.serve] handler; month tokens split on [-], batches of 500,
      optional purge, errors thrown and turned into a 500 response);
    - [ImportData]: [supabase/functions/import-data/index.ts], the edge
      function without deduplication and without purge.

    JavaScript strings are sequences of UTF-16 code units ([list N]),
    numbers are IEEE-754 binary64 values ([spec_float] at precision 53),
    the [row] object is a finite map, [seenKeys] a finite set, and the
    Supabase client is a state-and-exception monad over a table of rows.
    The properties of a request body are JSON values of any kind: the
    handlers do not check what they are given. *)

From Stdlib Require Import ZArith NArith List Bool Ascii String DecimalString Lia.
From Stdlib Require Import Floats.SpecFloat.
From stdpp Require Import base option list mapset gmap.

Local Open Scope N_scope.

(** ** JavaScript strings *)

Abbreviation jsstring := (list N).
(** A JavaScript value that is either [undefined] or a string. *)
Abbreviation jsval := (option (list N)).

(** A string literal of the source, as code units. *)
Definition str (s : string) : jsstring :=
  map N_of_ascii (list_ascii_of_string s).

Definition isEmpty (s : jsstring) : bool :=
  match s with [] => true | _ => false end.

(** [WhiteSpace] and [LineTerminator] of ECMAScript, the code units that
    [String.prototype.trim] strips. *)
Definition isWhiteSpace (c : N) : bool :=
  (c =? 0x09) || (c =? 0x0A) || (c =? 0x0B) || (c =? 0x0C) || (c =? 0x0D)
  || (c =? 0x20) || (c =? 0xA0) || (c =? 0x1680)
  || ((0x2000 <=? c) && (c <=? 0x200A))
  || (c =? 0x2028) || (c =? 0x2029) || (c =? 0x202F) || (c =? 0x205F)
  || (c =? 0x3000) || (c =? 0xFEFF).

Fixpoint trimStart (s : jsstring) : jsstring :=
  match s with
  | c :: s' => if isWhiteSpace c then trimStart s' else s
  | [] => []
  end.

Fixpoint trimEnd (s : jsstring) : jsstring :=
  match s with
  | c :: s' =>
      match trimEnd s' with
      | [] => if isWhiteSpace c then [] else [c]
      | t => c :: t
      end
  | [] => []
  end.

Definition trim (s : jsstring) : jsstring := trimEnd (trimStart s).

(** [s.split(sep)] for a one-code-unit separator: never empty, the empty
    string splits into one empty piece. *)
Fixpoint split (sep : N) (s : jsstring) : list jsstring :=
  match s with
  | [] => [[]]
  | c :: s' =>
      if c =? sep then [] :: split sep s'
      else match split sep s' with
           | w :: ws => (c :: w) :: ws
           | [] => [[c]]
           end
  end.

(** [s.replace(/,/g, '')]. *)
Definition removeCommas (s : jsstring) : jsstring :=
  filter (fun c => c ≠ 0x2C) s.

(** [s.replace(/^\uFEFF/, '')]. *)
Definition removeBOM (s : jsstring) : jsstring :=
  match s with
  | c :: s' => if c =? 0xFEFF then s' else s
  | [] => []
  end.

(** [s.toLowerCase()] on the letters A-Z. The result is only used as a key
    into [monthMap], whose own and inherited keys are ASCII and contain no
    [k] (the one ASCII letter another code unit, the Kelvin sign, lowers
    to), so the lookup agrees with the full Unicode mapping. *)
Definition toLowerCase (s : jsstring) : jsstring :=
  map (fun c => if (0x41 <=? c) && (c <=? 0x5A) then c + 0x20 else c) s.

(** Interpolation of an [undefined]-or-string value in a template string. *)
Definition interp (v : jsval) : jsstring :=
  match v with Some s => s | None => str "undefined" end.

(** Truthiness of an [undefined]-or-string value. *)
Definition truthy (v : jsval) : bool :=
  match v with Some (_ :: _) => true | _ => false end.

(** ** Exceptions *)

(** The [error] member of a Supabase response. *)
Record StoreErr := { err_is_Error : bool; err_message : jsstring }.

Inductive exn :=
| TypeError (message : jsstring)
| SyntaxError (message : jsstring)
| StoreFailure (e : StoreErr).

Inductive Outcome (A : Type) :=
| Return (a : A)
| Throw (e : exn).
Arguments Return {A} a.
Arguments Throw {A} e.

(** Reading property [p] of [undefined] (V8 wording). *)
Definition undefinedRead (p : string) : exn :=
  TypeError (str "Cannot read properties of undefined (reading '" ++ str p ++ str "')").

(** Reading property [p] of [null], and calling a property that is not a
    function (V8 wording). *)
Definition nullRead (p : string) : exn :=
  TypeError (str "Cannot read properties of null (reading '" ++ str p ++ str "')").

Definition notAFunction (callee : string) : exn :=
  TypeError (str callee ++ str " is not a function").

(** ** The month table *)

(** What [monthMap[key]] evaluates to: an own entry, [undefined], or a
    property inherited from [Object.prototype] (a built-in function, or
    the prototype object itself under [__proto__]). *)
Inductive MonthEntry :=
| OwnEntry (mm : jsstring)
| NoEntry
| InheritedFunction (name : jsstring)
| ObjectPrototype.

Definition monthTable : list (string * string) :=
  [("jan", "01"); ("feb", "02"); ("mar", "03"); ("apr", "04"); ("may", "05");
   ("jun", "06"); ("jul", "07"); ("aug", "08"); ("sep", "09"); ("oct", "10");
   ("nov", "11"); ("dec", "12")]%string.

(** The function-valued properties of [Object.prototype], each with the
    name of the function it holds. *)
Definition objectPrototypeFunctions : list (string * string) :=
  [("constructor", "Object"); ("hasOwnProperty", "hasOwnProperty");
   ("isPrototypeOf", "isPrototypeOf");
   ("propertyIsEnumerable", "propertyIsEnumerable");
   ("toLocaleString", "toLocaleString"); ("toString", "toString");
   ("valueOf", "valueOf"); ("__defineGetter__", "__defineGetter__");
   ("__defineSetter__", "__defineSetter__");
   ("__lookupGetter__", "__lookupGetter__");
   ("__lookupSetter__", "__lookupSetter__")]%string.

Fixpoint lookupTable (t : list (string * string)) (key : jsstring) : option jsstring :=
  match t with
  | (k, v) :: t' => if decide (str k = key) then Some (str v) else lookupTable t' key
  | [] => None
  end.

Definition monthMap (key : jsstring) : MonthEntry :=
  match lookupTable monthTable key with
  | Some mm => OwnEntry mm
  | None =>
      match lookupTable objectPrototypeFunctions key with
      | Some name => InheritedFunction name
      | None => if decide (key = str "__proto__") then ObjectPrototype else NoEntry
      end
  end.

(** Interpolation of [monthMap[key]] in a template string (V8 wording for
    the built-in functions). *)
Definition interpEntry (e : MonthEntry) : jsstring :=
  match e with
  | OwnEntry mm => mm
  | NoEntry => str "undefined"
  | InheritedFunction name => str "function " ++ name ++ str "() { [native code] }"
  | ObjectPrototype => str "[object Object]"
  end.

(** ** Numbers and [parseFloat] *)

(** JavaScript numbers are binary64 values. *)
Abbreviation number := spec_float.

Definition prec : Z := 53.
Definition emax : Z := 1024.

(** The Number value of an integer. *)
Definition numberOfZ (z : Z) : number := binary_normalize prec emax z 0 false.

(** The Number value of [m * 10^e] for a positive [m], with sign [neg]: one
    rounding to nearest, ties to even, of the exact quotient or product. *)
Definition roundDecimal (neg : bool) (m : positive) (e : Z) : number :=
  match e with
  | Zneg k =>
      let '(q, e', l) := SFdiv_core_binary prec emax (Zpos m) 0 (Zpos (10 ^ k)) 0 in
      binary_round_aux prec emax neg q e' l
  | _ => binary_normalize prec emax (cond_Zopp neg (Zpos m * 10 ^ e)) 0 neg
  end.

Definition isDigit (c : N) : bool := (0x30 <=? c) && (c <=? 0x39).

(** The longest run of decimal digits at the head of [s], and what follows. *)
Fixpoint takeDigits (s : jsstring) : jsstring * jsstring :=
  match s with
  | c :: s' =>
      if isDigit c then let '(ds, r) := takeDigits s' in (c :: ds, r)
      else ([], s)
  | [] => ([], [])
  end.

Definition digitsValue (ds : jsstring) : Z :=
  fold_left (fun acc d => 10 * acc + (Z.of_N d - 0x30))%Z ds 0%Z.

(** [ExponentPart], when one with at least a digit is present; 0 otherwise. *)
Definition exponentPart (s : jsstring) : Z :=
  match s with
  | c :: s' =>
      if (c =? 0x65) || (c =? 0x45) then
        let '(neg, s'') :=
          match s' with
          | 0x2B :: t => (false, t)
          | 0x2D :: t => (true, t)
          | _ => (false, s')
          end in
        match fst (takeDigits s'') with
        | [] => 0%Z
        | ds => if neg then (- digitsValue ds)%Z else digitsValue ds
        end
      else 0%Z
  | [] => 0%Z
  end.

(** The longest prefix that is a [StrUnsignedDecimalLiteral], evaluated
    with sign [neg]; [NaN] when there is none. *)
Definition unsignedDecimalLiteral (neg : bool) (s : jsstring) : number :=
  if decide (take 8 s = str "Infinity") then S754_infinity neg
  else
    let '(ip, r) := takeDigits s in
    let '(fp, r') :=
      match r with
      | 0x2E :: t => takeDigits t
      | _ => ([], r)
      end in
    match ip, fp with
    | [], [] => S754_nan
    | _, _ =>
        let m := (digitsValue ip * 10 ^ Z.of_nat (length fp) + digitsValue fp)%Z in
        let e := (exponentPart r' - Z.of_nat (length fp))%Z in
        match m with
        | Zpos p => roundDecimal neg p e
        | _ => S754_zero neg
        end
    end.

(** [parseFloat(s)] for a string [s]. *)
Definition parseFloatStr (s : jsstring) : number :=
  match trimStart s with
  | c :: t =>
      if c =? 0x2D then unsignedDecimalLiteral true t
      else if c =? 0x2B then unsignedDecimalLiteral false t
      else unsignedDecimalLiteral false (c :: t)
  | [] => unsignedDecimalLiteral false []
  end.

(** [parseFloat(v)]: an [undefined] argument is first turned into the
    string [undefined]. *)
Definition parseFloat (v : jsval) : number := parseFloatStr (interp v).

(** [x || 0] for a number [x]: zeros and [NaN] are falsy. *)
Definition orZero (x : number) : number :=
  match x with
  | S754_nan | S754_zero _ => S754_zero false
  | _ => x
  end.

(** [0 <= x] on numbers. *)
Definition nonNegative (x : number) : Prop := SFleb (S754_zero false) x = true.

(** ** Records, the row object and the store *)

(** The object literal pushed onto [records]. *)
Record MerchantRecord := {
  pillar : jsval;
  product_type : jsval;
  brand_id : jsval;
  merchant_name : jsval;
  tpt : number;
  tpv : number;
  date : jsstring
}.

(** [row[key] = value] on a plain object: assigning a string to
    [__proto__] is ignored. *)
Definition rowSet (key value : jsstring) (row : gmap (list N) (list N))
  : gmap (list N) (list N) :=
  if decide (key = str "__proto__") then row else <[key := value]> row.

(** [values[index]?.trim() || '']. *)
Definition fieldAt (values : list jsstring) (index : nat) : jsstring :=
  match values !! index with
  | Some v => let t := trim v in if isEmpty t then [] else t
  | None => []
  end.

(** [headers.forEach((header, index) => { row[header.trim()] = ... })],
    from position [index] on. *)
Fixpoint forEachHeader (headers : list jsstring) (index : nat)
    (values : list jsstring) (row : gmap (list N) (list N))
  : gmap (list N) (list N) :=
  match headers with
  | header :: headers' =>
      forEachHeader headers' (S index) values
        (rowSet (trim header) (fieldAt values index) row)
  | [] => row
  end.

Definition buildRow (headers values : list jsstring) : gmap (list N) (list N) :=
  forEachHeader headers 0 values ∅.

(** [values.every(v => !v || !v.trim())]. *)
Definition allEmpty (values : list jsstring) : bool :=
  forallb (fun v => isEmpty v || isEmpty (trim v)) values.

(** [seenKeys.add(key)]: the set with [key] added ([setAdd_union]). *)
Definition setAdd (key : jsstring) (keys : gset (list N)) : gset (list N) :=
  Mapset (<[key := ()]> (mapset_car keys)).

(** A row of the [merchant_data] table. *)
Record StoredRow := { id : jsstring; data : MerchantRecord }.

(** A request sent to the table. *)
Inductive Call :=
| DeleteNeqId (value : jsstring)
| InsertRows (batch : list MerchantRecord).

(** The table and its environment: the rows, the log of requests in the
    order they were sent, the error (if any) the store answers to its
    [k]-th request, and the identifiers [gen_random_uuid()] hands out. *)
Record World := {
  rows : list StoredRow;
  calls : list Call;
  faults : nat -> option StoreErr;
  uuids : nat -> jsstring;
  next_uuid : nat
}.

(** Computations that talk to the store and may throw. *)
Definition M (A : Type) : Type := World -> Outcome A * World.

Definition ret {A} (a : A) : M A := fun w => (Return a, w).

Definition throw {A} (e : exn) : M A := fun w => (Throw e, w).

Definition bind {A B} (m : M A) (k : A -> M B) : M B :=
  fun w =>
    match m w with
    | (Return a, w') => k a w'
    | (Throw e, w') => (Throw e, w')
    end.

Definition lift {A} (o : Outcome A) : M A := fun w => (o, w).

Definition bindO {A B} (o : Outcome A) (k : A -> Outcome B) : Outcome B :=
  match o with
  | Return a => k a
  | Throw e => Throw e
  end.

Declare Scope js_scope.
Delimit Scope js_scope with js.
Notation "x <- m ;; k" := (bind m (fun x => k))
  (at level 100, m at next level, right associativity) : js_scope.
Notation "m ;; k" := (bind m (fun _ => k))
  (at level 100, right associativity) : js_scope.
Notation "x <-? o ;; k" := (bindO o (fun x => k))
  (at level 100, o at next level, right associativity) : js_scope.

(** The rows a successful insert of [batch] adds, with identifiers
    [uuids n], [uuids (n+1)], ... *)
Fixpoint freshRows (uuids : nat -> jsstring) (n : nat) (batch : list MerchantRecord)
  : list StoredRow :=
  match batch with
  | r :: batch' => {| id := uuids n; data := r |} :: freshRows uuids (S n) batch'
  | [] => []
  end.

(** What a request does to the table when the store carries it out:
    [delete().neq('id', value)] keeps exactly the rows whose [id] equals
    [value]; [insert(batch)] appends the batch. *)
Definition perform (c : Call) (w : World) : World :=
  match c with
  | DeleteNeqId value =>
      {| rows := filter (fun r => id r = value) (rows w); calls := calls w;
         faults := faults w; uuids := uuids w; next_uuid := next_uuid w |}
  | InsertRows batch =>
      {| rows := rows w ++ freshRows (uuids w) (next_uuid w) batch;
         calls := calls w; faults := faults w; uuids := uuids w;
         next_uuid := (next_uuid w + length batch)%nat |}
  end.

Definition logCall (c : Call) (w : World) : World :=
  {| rows := rows w; calls := calls w ++ [c]; faults := faults w;
     uuids := uuids w; next_uuid := next_uuid w |}.

(** One awaited request: the store answers [{ error }]. A request it
    fails leaves the table as it was. *)
Definition request (c : Call) : M (option StoreErr) :=
  fun w =>
    match faults w (length (calls w)) with
    | Some e => (Return (Some e), logCall c w)
    | None => (Return None, logCall c (perform c w))
    end.

(** [supabase.from('merchant_data').delete().neq('id', value)]. *)
Definition deleteNeqId (value : jsstring) : M (option StoreErr) :=
  request (DeleteNeqId value).

(** [supabase.from('merchant_data').insert(batch).select()]; only [error]
    of the answer is read. *)
Definition insertRows (batch : list MerchantRecord) : M (option StoreErr) :=
  request (InsertRows batch).

(** [error instanceof Error ? error.message : fallback]. *)
Definition errorMessage (error : exn) (fallback : jsstring) : jsstring :=
  match error with
  | TypeError m | SyntaxError m => m
  | StoreFailure e => if err_is_Error e then err_message e else fallback
  end.

(** [records.slice(i, j)] for [i <= j]. *)
Definition slice {A} (i j : nat) (l : list A) : list A := take (j - i) (drop i l).

Local Open Scope js_scope.

(** ** JSON values *)

(** A value of a parsed JSON body. The type annotations of the source are
    erased when it runs: the handlers hand [csvContent] and
    [clearExisting] on as they come, whatever kind of value they are. *)
#[warnings="-register-all"]
Inductive jsonValue :=
| JNull
| JBool (b : bool)
| JNumber (x : number)
| JString (s : jsstring)
| JArray (items : list jsonValue)
| JObject (members : list (jsstring * jsonValue)).

(** A string or a boolean stands for itself where a JSON value is
    expected. *)
Coercion JBool : bool >-> jsonValue.
#[warnings="-uniform-inheritance"]
Coercion JString : list >-> jsonValue.

(** [ToBoolean], as [if (value)] and [!value] apply it: [null], [false],
    zero, [NaN] and the empty string are falsy, everything else is truthy. *)
Definition toBoolean (value : jsonValue) : bool :=
  match value with
  | JNull => false
  | JBool b => b
  | JNumber (S754_zero _) | JNumber S754_nan => false
  | JNumber _ => true
  | JString s => negb (isEmpty s)
  | JArray _ | JObject _ => true
  end.

(** The same for a property that may be absent ([undefined] is falsy). *)
Definition present (value : option jsonValue) : bool :=
  match value with Some v => toBoolean v | None => false end.

(** The receiver of [value.replace(...)]: only a string has that method.
    [null] has no properties at all, and no other JSON value holds a
    function under [replace]. [callee] is the text of the call, for the
    message. *)
Definition replaceReceiver (callee : string) (value : jsonValue) : Outcome jsstring :=
  match value with
  | JString s => Return s
  | JNull => Throw (nullRead "replace")
  | _ => Throw (notAFunction callee)
  end.

(** ** The deduplicating edge function *)

Module EdgeFn.

Definition parseMonthToDate (monthStr : jsval) : Outcome jsstring :=
  match monthStr with
  | None => Throw (undefinedRead "split")
  | Some s =>
      let parts := split 0x2D s in
      match parts !! 0%nat with
      | None => Throw (undefinedRead "toLowerCase")
      | Some month =>
          let monthLower := toLowerCase month in
          match parts !! 1%nat with
          | None => Throw (undefinedRead "length")
          | Some year =>
              let fullYear :=
                if (length year =? 2)%nat then str "20" ++ year else year in
              Return (fullYear ++ str "-" ++ interpEntry (monthMap monthLower)
                        ++ str "-01")
          end
      end
  end.

Record ImportResult := {
  imported : nat;
  duplicatesSkipped : nat;
  cleared : jsonValue;
  errors : nat;
  message : jsstring
}.

(** The variables the row loop updates. *)
Record RowLoop := {
  records : list MerchantRecord;
  seenKeys : gset (list N);
  duplicates : nat
}.

(** The template string of the deduplication key. *)
Definition uniqueKeyOf (pillar brand_id merchant_name product_type : jsval)
    (date : jsstring) : jsstring :=
  interp pillar ++ str "-" ++ interp brand_id ++ str "-" ++ interp merchant_name
    ++ str "-" ++ interp product_type ++ str "-" ++ date.

(** One iteration of [for (let i = 1; i < lines.length; i++)] on the
    line [lines[i]]. *)
Definition importLine (headers : list jsstring) (line : jsstring) (st : RowLoop)
  : Outcome RowLoop :=
  let values := split 0x3B line in
  if allEmpty values then Return st
  else
    let row := buildRow headers values in
    if negb (truthy (row !! str "pillar")) || negb (truthy (row !! str "brand_id"))
    then Return st
    else
      date <-? parseMonthToDate (row !! str "month") ;;
      let uniqueKey :=
        uniqueKeyOf (row !! str "pillar") (row !! str "brand_id")
          (row !! str "merchant_name") (row !! str "product_type") date in
      if decide (uniqueKey ∈ seenKeys st) then
        Return {| records := records st; seenKeys := seenKeys st;
                  duplicates := S (duplicates st) |}
      else
        match row !! str "tpv" with
        | None => Throw (undefinedRead "replace")
        | Some rawTpv =>
            let tpvValue := removeCommas rawTpv in
            Return
              {| records :=
                   records st ++
                     [{| pillar := row !! str "pillar";
                         product_type := row !! str "product_type";
                         brand_id := row !! str "brand_id";
                         merchant_name := row !! str "merchant_name";
                         tpt := orZero (parseFloat (row !! str "tpt"));
                         tpv := orZero (parseFloatStr tpvValue);
                         date := date |}];
                 seenKeys := setAdd uniqueKey (seenKeys st);
                 duplicates := duplicates st |}
        end.

(** The row loop over [lines[1]], [lines[2]], ... *)
Fixpoint importLines (headers : list jsstring) (dataLines : list jsstring)
    (st : RowLoop) : Outcome RowLoop :=
  match dataLines with
  | line :: dataLines' =>
      st' <-? importLine headers line st ;;
      importLines headers dataLines' st'
  | [] => Return st
  end.

(** Everything between the purge and the batch loop: the header, the
    data lines and the row loop. *)
Definition parseRecords (csvContent : jsstring) : Outcome RowLoop :=
  let cleanContent := removeBOM csvContent in
  let lines := split 0x0A (trim cleanContent) in
  match lines !! 0%nat with
  | None => Throw (undefinedRead "split")
  | Some headerLine =>
      let headers := map trim (split 0x3B headerLine) in
      importLines headers (drop 1 lines)
        {| records := []; seenKeys := ∅; duplicates := 0 |}
  end.

Definition batchSize : nat := 500.

(** [for (let i = 0; i < records.length; i += batchSize)], from [i] on;
    returns [totalInserted]. An iteration adds [batchSize] to [i], so
    [length records] iterations are enough ([insertLoop_fuel]). *)
Fixpoint insertLoop (fuel : nat) (records : list MerchantRecord)
    (i totalInserted : nat) : M nat :=
  match fuel with
  | O => ret totalInserted
  | S fuel' =>
      if (i <? length records)%nat then
        let batch := slice i (i + batchSize) records in
        error <- insertRows batch ;;
        match error with
        | Some e => throw (StoreFailure e)
        | None =>
            insertLoop fuel' records (i + batchSize)
              (totalInserted + length batch)
        end
      else ret totalInserted
  end.

Definition insertBatches (records : list MerchantRecord) : M nat :=
  insertLoop (length records) records 0 0.

Definition nilUUID : jsstring := str "00000000-0000-0000-0000-000000000000".

(** The arguments are the values the handler passes, of any kind (the
    parameter default of [clearExisting] is not used: the handler always
    passes a value). [if (clearExisting)] goes by truthiness, the result
    repeats the flag as it came, and [csvContent.replace], the first use of
    the text, comes after the purge. *)
Definition importCheckoutData (csvContent : jsonValue) (clearExisting : jsonValue)
  : M ImportResult :=
  (if toBoolean clearExisting then
     deleteError <- deleteNeqId nilUUID ;;
     match deleteError with
     | Some e => throw (StoreFailure e)
     | None => ret tt
     end
   else ret tt) ;;
  text <- lift (replaceReceiver "csvContent.replace" csvContent) ;;
  st <- lift (parseRecords text) ;;
  totalInserted <- insertBatches (records st) ;;
  ret {| imported := length (records st);
         duplicatesSkipped := duplicates st;
         cleared := clearExisting;
         errors := 0;
         message := str "Data imported successfully" |}.

(** What the handler takes from the JSON body: the properties
    [csvContent] and [clearExisting], each absent ([None]) or a JSON value
    of any kind. *)
Record Payload := { csvContent : option jsonValue; clearExisting : option jsonValue }.

(** A request: its method and what destructuring [await req.json()] gives
    (the two properties, or the exception of a body that is not JSON or is
    [null]). *)
Record Request := { method : jsstring; json : Outcome Payload }.

Inductive Body :=
| NoBody
| ErrorOnly (error : jsstring)
| Result (result : ImportResult)
| Failure (error : jsstring) (imported skipped errors : nat) (message : jsstring).

Record Response := { status : nat; body : Body }.

(** The handler given to [Deno.serve]. *)
Definition serve (req : Request) (w : World) : Response * World :=
  if decide (method req = str "OPTIONS") then
    ({| status := 200; body := NoBody |}, w)
  else
    let attempt : M Response :=
      payload <- lift (json req) ;;
      match csvContent payload with
      | Some text =>
          if toBoolean text then
            result <- importCheckoutData text
                        (default (JBool false) (clearExisting payload)) ;;
            ret {| status := 200; body := Result result |}
          else
            ret {| status := 400; body := ErrorOnly (str "CSV content is required") |}
      | None =>
          ret {| status := 400; body := ErrorOnly (str "CSV content is required") |}
      end in
    match attempt w with
    | (Return response, w') => (response, w')
    | (Throw error, w') =>
        ({| status := 500;
            body := Failure (errorMessage error (str "Import failed")) 0 0 1
                      (str "Import failed") |}, w')
    end.

End EdgeFn.

(** ** The direct-call import *)

Module Client.

Definition parseMonthToDate (monthStr : jsval) : Outcome jsstring :=
  match monthStr with
  | None => Throw (undefinedRead "split")
  | Some s =>
      let parts := split 0x5F s in
      let month := parts !! 0%nat in
      let year := parts !! 1%nat in
      Return (interp year ++ str "-" ++ interpEntry (monthMap (interp month))
                ++ str "-01")
  end.

Record ImportResult := {
  imported : nat;
  skipped : nat;
  errors : nat;
  message : jsstring
}.

(** One iteration of the row loop on the line [lines[i]]. *)
Definition importLine (headers : list jsstring) (line : jsstring)
    (records : list MerchantRecord) : Outcome (list MerchantRecord) :=
  let values := split 0x3B line in
  if allEmpty values then Return records
  else
    let row := buildRow headers values in
    if negb (truthy (row !! str "pillar")) || negb (truthy (row !! str "brand_id"))
    then Return records
    else
      date <-? parseMonthToDate (row !! str "month") ;;
      Return (records ++
                [{| pillar := row !! str "pillar";
                    product_type := row !! str "product_type";
                    brand_id := row !! str "brand_id";
                    merchant_name := row !! str "merchant_name";
                    tpt := orZero (parseFloat (row !! str "tpt"));
                    tpv := orZero (parseFloat (row !! str "tpv"));
                    date := date |}]).

Fixpoint importLines (headers : list jsstring) (dataLines : list jsstring)
    (records : list MerchantRecord) : Outcome (list MerchantRecord) :=
  match dataLines with
  | line :: dataLines' =>
      records' <-? importLine headers line records ;;
      importLines headers dataLines' records'
  | [] => Return records
  end.

Definition parseRecords (csvContent : jsstring) : Outcome (list MerchantRecord) :=
  let lines := split 0x0A (trim csvContent) in
  match lines !! 0%nat with
  | None => Throw (undefinedRead "split")
  | Some headerLine =>
      let headers := split 0x3B headerLine in
      importLines headers (drop 1 lines) []
  end.

Definition importCheckoutData (csvContent : jsstring) (w : World)
  : ImportResult * World :=
  let attempt : M ImportResult :=
    records <- lift (parseRecords csvContent) ;;
    error <- insertRows records ;;
    match error with
    | Some e => throw (StoreFailure e)
    | None =>
        ret {| imported := length records; skipped := 0; errors := 0;
               message := str "Data imported successfully" |}
    end in
  match attempt w with
  | (Return result, w') => (result, w')
  | (Throw error, w') =>
      ({| imported := 0; skipped := 0; errors := 1;
          message := errorMessage error (str "Import failed") |}, w')
  end.

End Client.

(** ** Notions the properties are stated with *)

(** The column called [name] of a line: the field, trimmed, under the last
    header that trims to [name]; [undefined] when no header does. *)
Fixpoint fieldNamed (name : jsstring) (headers : list jsstring) (index : nat)
    (values : list jsstring) : jsval :=
  match headers with
  | header :: headers' =>
      match fieldNamed name headers' (S index) values with
      | Some v => Some v
      | None => if decide (trim header = name) then Some (fieldAt values index) else None
      end
  | [] => None
  end.

(** A data line counts when some field is not blank and its [pillar] and
    [brand_id] columns are not empty. *)
Definition eligible (headers : list jsstring) (line : jsstring) : bool :=
  let values := split 0x3B line in
  negb (allEmpty values)
  && truthy (fieldNamed (str "pillar") headers 0 values)
  && truthy (fieldNamed (str "brand_id") headers 0 values).

(** The lines of a CSV text as the edge function reads them, its header
    names and its data lines. *)
Definition csvLines (csv : jsstring) : list jsstring :=
  split 0x0A (trim (removeBOM csv)).

Definition csvHeaders (csv : jsstring) : list jsstring :=
  map trim (split 0x3B (default [] (head (csvLines csv)))).

Definition csvDataLines (csv : jsstring) : list jsstring := drop 1 (csvLines csv).

(** The identity tuple of a record, and the key the deduplicator gives it. *)
Definition identity (r : MerchantRecord) : jsval * jsval * jsval * jsval * jsstring :=
  (pillar r, brand_id r, merchant_name r, product_type r, date r).

Definition recordKey (r : MerchantRecord) : jsstring :=
  EdgeFn.uniqueKeyOf (pillar r) (brand_id r) (merchant_name r) (product_type r) (date r).

(** [parts.join(sep)]. *)
Fixpoint join (sep : jsstring) (parts : list jsstring) : jsstring :=
  match parts with
  | [] => []
  | [p] => p
  | p :: parts' => p ++ sep ++ join sep parts'
  end.

(** The text handed to [parseFloat] starts, after white space, with a
    minus sign. *)
Definition leadingMinus (s : jsstring) : bool :=
  match trimStart s with
  | c :: _ => c =? 0x2D
  | [] => false
  end.

(** The exact integer a number holds, when it holds one. *)
Definition integerValue (x : number) : option Z :=
  match x with
  | S754_zero _ => Some 0%Z
  | S754_finite s m e =>
      let v := match e with
               | Zneg k => if (Zpos m mod 2 ^ Zpos k =? 0)%Z
                           then Some (Zpos m / 2 ^ Zpos k)%Z else None
               | _ => Some (Zpos m * 2 ^ e)%Z
               end in
      (fun z => if s then (- z)%Z else z) <$> v
  | _ => None
  end.

(** Stores of the examples: one that answers every request, one that fails
    its [k]-th request with [e]. *)
Definition noFaults : nat -> option StoreErr := fun _ => None.

Definition failAt (k : nat) (e : StoreErr) : nat -> option StoreErr :=
  fun j => if decide (j = k) then Some e else None.

Definition decimal (n : nat) : jsstring :=
  str (NilEmpty.string_of_uint (Nat.to_uint n)).

Definition store (rs : list StoredRow) (faults : nat -> option StoreErr) : World :=
  {| rows := rs; calls := []; faults := faults; uuids := decimal; next_uuid := 0 |}.

(** The records of the insert requests in [sent] that the store carried
    out, [sent] being the requests number [first], [first + 1], ... of the
    store: a request is carried out when the fault plan has nothing for its
    number. *)
Fixpoint carriedOut (faults : nat -> option StoreErr) (first : nat) (sent : list Call)
  : list MerchantRecord :=
  match sent with
  | InsertRows batch :: sent' =>
      match faults first with
      | None => batch ++ carriedOut faults (S first) sent'
      | Some _ => carriedOut faults (S first) sent'
      end
  | DeleteNeqId _ :: sent' => carriedOut faults (S first) sent'
  | [] => []
  end.

(** The sizes of the insert requests in a log. *)
Definition insertSizes (cs : list Call) : list nat :=
  omap (fun c => match c with InsertRows b => Some (length b) | _ => None end) cs.

(** A POST request carrying [csv]. *)
Definition post (csv : jsstring) (clear : option bool) : EdgeFn.Request :=
  {| EdgeFn.method := str "POST";
     EdgeFn.json := Return {| EdgeFn.csvContent := Some (JString csv);
                              EdgeFn.clearExisting := JBool <$> clear |} |}.

(** How many records the row loop accepts, when it does not throw. *)
Definition parsedCount (csv : jsstring) : option nat :=
  match EdgeFn.parseRecords csv with
  | Return st => Some (length (EdgeFn.records st))
  | Throw _ => None
  end.

(** Sample inputs. *)
Definition newline : jsstring := [0x0A].

Definition sampleHeader : jsstring :=
  str "pillar;product_type;brand_id;merchant_name;tpt;tpv;month".

(** The scenario of the specification: one row, twice, month token
    [jan_25]; and the same with the token [jan-25]. *)
Definition scenarioUnderscore : jsstring :=
  sampleHeader ++ newline ++ str "Wallets_Billing;PayChat;B1;Acme;10;1,000;jan_25"
    ++ newline ++ str "Wallets_Billing;PayChat;B1;Acme;10;1,000;jan_25".

Definition scenarioHyphen : jsstring :=
  sampleHeader ++ newline ++ str "Wallets_Billing;PayChat;B1;Acme;10;1,000;jan-25"
    ++ newline ++ str "Wallets_Billing;PayChat;B1;Acme;10;1,000;jan-25".

(** [n] rows that differ in [brand_id] ([B1], [B2], ...), after the header. *)
Fixpoint uniqueRows (n : nat) (acc : jsstring) : jsstring :=
  match n with
  | O => acc
  | S k =>
      uniqueRows k (newline ++ str "W;P;B" ++ decimal n ++ str ";A;1;1;jan-25" ++ acc)
  end.

Definition uniqueCsv (n : nat) : jsstring := sampleHeader ++ uniqueRows n [].

(** An outcome that is a normal return. *)
Definition returns {A} (o : Outcome A) : Prop :=
  match o with Return _ => True | Throw _ => False end.

(** The variables of the row loop before its first iteration. *)
Definition initialLoop : EdgeFn.RowLoop :=
  {| EdgeFn.records := []; EdgeFn.seenKeys := ∅; EdgeFn.duplicates := 0 |}.

(** The purge step of [EdgeFn.importCheckoutData], on its own. *)
Definition purge (clearExisting : bool) : M unit :=
  if clearExisting then
    deleteError <- deleteNeqId EdgeFn.nilUUID ;;
    match deleteError with
    | Some e => throw (StoreFailure e)
    | None => ret tt
    end
  else ret tt.

(** What one iteration of the row loop of the edge function does to its
    variables, when it does not throw. *)
Variant LineStep (headers : list jsstring) (line : jsstring)
    (st st' : EdgeFn.RowLoop) : Prop :=
| LineSkipped :
    eligible headers line = false → st' = st → LineStep headers line st st'
| LineDuplicate :
    eligible headers line = true →
    EdgeFn.records st' = EdgeFn.records st →
    EdgeFn.seenKeys st' = EdgeFn.seenKeys st →
    EdgeFn.duplicates st' = S (EdgeFn.duplicates st) →
    LineStep headers line st st'
| LineAccepted (r : MerchantRecord) (rawTpv : jsstring) :
    eligible headers line = true →
    EdgeFn.records st' = EdgeFn.records st ++ [r] →
    recordKey r ∉ EdgeFn.seenKeys st →
    EdgeFn.seenKeys st' = setAdd (recordKey r) (EdgeFn.seenKeys st) →
    EdgeFn.duplicates st' = EdgeFn.duplicates st →
    tpt r = orZero (parseFloat (fieldNamed (str "tpt") headers 0 (split 0x3B line))) →
    fieldNamed (str "tpv") headers 0 (split 0x3B line) = Some rawTpv →
    tpv r = orZero (parseFloatStr (removeCommas rawTpv)) →
    LineStep headers line st st'.

(** The loop invariant of the deduplicator: accepted records have distinct
    keys, all of them in [seenKeys]. *)
Definition KeysDistinct (st : EdgeFn.RowLoop) : Prop :=
  NoDup (recordKey <$> EdgeFn.records st)
  ∧ ∀ r, r ∈ EdgeFn.records st → recordKey r ∈ EdgeFn.seenKeys st.

(** The records the row loop of the edge function accepts. *)
Definition serverRecords (csv : jsstring) : Outcome (list MerchantRecord) :=
  st <-? EdgeFn.parseRecords csv ;; Return (EdgeFn.records st).

(** Their identity tuples, and the [(tpt, tpv)] pairs of a list of records. *)
Definition acceptedIdentities (csv : jsstring)
  : option (list (jsval * jsval * jsval * jsval * jsstring)) :=
  match serverRecords csv with
  | Return records => Some (identity <$> records)
  | Throw _ => None
  end.

Definition amounts (o : Outcome (list MerchantRecord)) : option (list (number * number)) :=
  match o with
  | Return records => Some ((fun r => (tpt r, tpv r)) <$> records)
  | Throw _ => None
  end.

(** The two ingestion paths. *)
Inductive Path := ServerPath | ClientPath.

(** The text a path hands to [parseFloat] for the [tpv] column. *)
Definition tpvText (path : Path) (raw : jsstring) : jsstring :=
  match path with
  | ServerPath => removeCommas raw
  | ClientPath => raw
  end.

(** Path [path] turns the line into the record [r]. *)
Definition emits (path : Path) (headers : list jsstring) (line : jsstring)
    (r : MerchantRecord) : Prop :=
  match path with
  | ServerPath =>
      ∃ st st', EdgeFn.importLine headers line st = Return st'
                ∧ EdgeFn.records st' = EdgeFn.records st ++ [r]
  | ClientPath =>
      ∃ records, Client.importLine headers line records = Return (records ++ [r])
  end.

(** The body of the 500 response for the exception [e]. *)
Definition failureBody (e : exn) : EdgeFn.Body :=
  EdgeFn.Failure (errorMessage e (str "Import failed")) 0 0 1 (str "Import failed").

(** More sample inputs. *)
Definition oneRow (row : string) : jsstring := sampleHeader ++ newline ++ str row.

Definition mixedCsv : jsstring :=
  sampleHeader ++ newline ++ str "Wallets_Billing;PayChat;B1;Acme;10;1,000;jan-25"
    ++ newline ++ str ";;;;;;"
    ++ newline ++ str ";PayChat;B2;NoPillar;1;1;jan-25"
    ++ newline ++ str "Wallets_Billing;PayChat;B1;Acme;11;2,000;JAN-25"
    ++ newline ++ str "Cards;PayChat;B3;Bolt;5;7;feb-2025".

Definition acmeRecord : MerchantRecord :=
  {| pillar := Some (str "Wallets_Billing"); product_type := Some (str "PayChat");
     brand_id := Some (str "B1"); merchant_name := Some (str "Acme");
     tpt := numberOfZ 10; tpv := numberOfZ 1000; date := str "2025-01-01" |}.

Definition boltRecord : MerchantRecord :=
  {| pillar := Some (str "Cards"); product_type := Some (str "PayChat");
     brand_id := Some (str "B3"); merchant_name := Some (str "Bolt");
     tpt := numberOfZ 5; tpv := numberOfZ 7; date := str "2025-02-01" |}.

(** A record with a negative [tpt] and a positive [tpv]. *)
Definition refundRecord : MerchantRecord :=
  {| pillar := Some (str "Cards"); product_type := Some (str "PayChat");
     brand_id := Some (str "B3"); merchant_name := Some (str "Bolt");
     tpt := SFopp (numberOfZ 5); tpv := numberOfZ 7; date := str "2025-02-01" |}.

(** The merchant of [boltRecord], a month later. *)
Definition marchRecord : MerchantRecord :=
  {| pillar := Some (str "Cards"); product_type := Some (str "PayChat");
     brand_id := Some (str "B3"); merchant_name := Some (str "Bolt");
     tpt := numberOfZ 6; tpv := numberOfZ 8; date := str "2025-03-01" |}.

Definition sampleError : StoreErr :=
  {| err_is_Error := false;
     err_message := str "canceling statement due to statement timeout" |}.

(** A table holding one row under the nil UUID and one under another id. *)
Definition sampleTable : list StoredRow :=
  [{| id := EdgeFn.nilUUID; data := acmeRecord |};
   {| id := str "7f9c24e8-3b1a-4f6e-9d52-0c8a1b2e4d61"; data := boltRecord |}].

(** Two rows with different identity tuples and the same key. *)
Definition hyphenInPillar : jsval * jsval * jsval * jsval * jsstring :=
  (Some (str "a-b"), Some (str "c"), Some (str "M"), Some (str "P"), str "2025-01-01").

Definition hyphenInBrand : jsval * jsval * jsval * jsval * jsstring :=
  (Some (str "a"), Some (str "b-c"), Some (str "M"), Some (str "P"), str "2025-01-01").

Definition keyOfIdentity (t : jsval * jsval * jsval * jsval * jsstring) : jsstring :=
  let '(pillar, brand_id, merchant_name, product_type, date) := t in
  EdgeFn.uniqueKeyOf pillar brand_id merchant_name product_type date.

(** ** The edge function without deduplication *)

(** [supabase/functions/import-data/index.ts]: the same pipeline with no
    purge and no [seenKeys]; its [parseMonthToDate] and its batch loop are,
    line for line, those of [EdgeFn]. *)
Module ImportData.

Definition parseMonthToDate : jsval -> Outcome jsstring := EdgeFn.parseMonthToDate.

Record ImportResult := {
  imported : nat;
  skipped : nat;
  errors : nat;
  message : jsstring
}.

(** One iteration of the row loop on the line [lines[i]]. The commas are
    stripped from [row.tpv] before the record literal is built, so a
    missing [tpv] column throws before the month is looked at. *)
Definition importLine (headers : list jsstring) (line : jsstring)
    (records : list MerchantRecord) : Outcome (list MerchantRecord) :=
  let values := split 0x3B line in
  if allEmpty values then Return records
  else
    let row := buildRow headers values in
    if negb (truthy (row !! str "pillar")) || negb (truthy (row !! str "brand_id"))
    then Return records
    else
      match row !! str "tpv" with
      | None => Throw (undefinedRead "replace")
      | Some rawTpv =>
          let tpvValue := removeCommas rawTpv in
          date <-? parseMonthToDate (row !! str "month") ;;
          Return (records ++
                    [{| pillar := row !! str "pillar";
                        product_type := row !! str "product_type";
                        brand_id := row !! str "brand_id";
                        merchant_name := row !! str "merchant_name";
                        tpt := orZero (parseFloat (row !! str "tpt"));
                        tpv := orZero (parseFloatStr tpvValue);
                        date := date |}])
      end.

Fixpoint importLines (headers : list jsstring) (dataLines : list jsstring)
    (records : list MerchantRecord) : Outcome (list MerchantRecord) :=
  match dataLines with
  | line :: dataLines' =>
      records' <-? importLine headers line records ;;
      importLines headers dataLines' records'
  | [] => Return records
  end.

Definition parseRecords (csvContent : jsstring) : Outcome (list MerchantRecord) :=
  let cleanContent := removeBOM csvContent in
  let lines := split 0x0A (trim cleanContent) in
  match lines !! 0%nat with
  | None => Throw (undefinedRead "split")
  | Some headerLine =>
      let headers := map trim (split 0x3B headerLine) in
      importLines headers (drop 1 lines) []
  end.

Definition importCheckoutData (csvContent : jsonValue) : M ImportResult :=
  text <- lift (replaceReceiver "csvContent.replace" csvContent) ;;
  records <- lift (parseRecords text) ;;
  totalInserted <- EdgeFn.insertBatches records ;;
  ret {| imported := length records; skipped := 0; errors := 0;
         message := str "Data imported successfully" |}.

Inductive Body :=
| NoBody
| ErrorOnly (error : jsstring)
| Result (result : ImportResult)
| Failure (error : jsstring) (imported skipped errors : nat) (message : jsstring).

Record Response := { status : nat; body : Body }.

(** The handler given to [Deno.serve]; of the JSON body only [csvContent]
    is read. *)
Definition serve (req : EdgeFn.Request) (w : World) : Response * World :=
  if decide (EdgeFn.method req = str "OPTIONS") then
    ({| status := 200; body := NoBody |}, w)
  else
    let attempt : M Response :=
      payload <- lift (EdgeFn.json req) ;;
      match EdgeFn.csvContent payload with
      | Some text =>
          if toBoolean text then
            result <- importCheckoutData text ;;
            ret {| status := 200; body := Result result |}
          else
            ret {| status := 400; body := ErrorOnly (str "CSV content is required") |}
      | None =>
          ret {| status := 400; body := ErrorOnly (str "CSV content is required") |}
      end in
    match attempt w with
    | (Return response, w') => (response, w')
    | (Throw error, w') =>
        ({| status := 500;
            body := Failure (errorMessage error (str "Import failed")) 0 0 1
                      (str "Import failed") |}, w')
    end.

End ImportData.

(** ** Notions the further properties are stated with *)

(** What every record handed to the store satisfies. *)
Record WellFormed (r : MerchantRecord) : Prop := {
  wf_pillar : truthy (pillar r) = true;
  wf_brand_id : truthy (brand_id r) = true;
  wf_tpt : tpt r ≠ S754_nan;
  wf_tpv : tpv r ≠ S754_nan;
  wf_date : ∃ yearAndMonth, date r = yearAndMonth ++ str "-01"
}.

(** The request asks for a purge: its body parses and carries a truthy
    [csvContent] and a truthy [clearExisting], of whatever kind. *)
Definition wantsPurge (req : EdgeFn.Request) : bool :=
  match EdgeFn.json req with
  | Return payload =>
      present (EdgeFn.csvContent payload) && present (EdgeFn.clearExisting payload)
  | Throw _ => false
  end.

(** The request carries a string as [csvContent]. *)
Definition csvText (req : EdgeFn.Request) : option jsstring :=
  match EdgeFn.json req with
  | Return payload =>
      match EdgeFn.csvContent payload with
      | Some (JString s) => Some s
      | _ => None
      end
  | Throw _ => None
  end.

(** The table after the purge step, when the store carries it out. *)
Definition purged (clearExisting : bool) (rs : list StoredRow) : list StoredRow :=
  if clearExisting then filter (λ r, id r = EdgeFn.nilUUID) rs else rs.

(** A store that answers every request, with identifiers [row0], [row1],
    ... *)
Definition reliableStore (rs : list StoredRow) : World :=
  {| rows := rs; calls := []; faults := noFaults;
     uuids := λ n, str "row" ++ decimal n; next_uuid := 0 |}.

(** How the variables of the deduplicating row loop relate to the records
    of the loop without deduplication, line after line. *)
Record Refines (headers : list jsstring) (st : EdgeFn.RowLoop)
    (all : list MerchantRecord) : Prop := {
  ref_sublist : EdgeFn.records st `sublist_of` all;
  ref_seen : ∀ r, r ∈ all → recordKey r ∈ EdgeFn.seenKeys st;
  ref_kept : ∀ k, k ∈ EdgeFn.seenKeys st →
                  ∃ r, r ∈ EdgeFn.records st ∧ recordKey r = k;
  ref_count : length all = (length (EdgeFn.records st) + EdgeFn.duplicates st)%nat;
  ref_tpv : ∀ k, k ∈ EdgeFn.seenKeys st →
                 ∀ values, fieldNamed (str "tpv") headers 0 values ≠ None;
  ref_first : ∀ i r, all !! i = Some r →
                     (∀ j r', (j < i)%nat → all !! j = Some r' →
                              recordKey r' ≠ recordKey r) →
                     r ∈ EdgeFn.records st
}.

(** * Sanity checks of the primitives *)

Example split_empty : split 0x3B [] = [[]].
Proof. reflexivity. Qed.

Example split_fields : split 0x3B (str "a;;b") = [str "a"; []; str "b"].
Proof. reflexivity. Qed.

Example trim_crlf : trim (str " x y " ++ [0x0D]) = str "x y".
Proof. reflexivity. Qed.

Example parseFloat_tenth :
  parseFloatStr (str "0.1") = S754_finite false 7205759403792794 (-56).
Proof. reflexivity. Qed.

Example parseFloat_prefix : parseFloatStr (str " -12.5e1x") = SFopp (numberOfZ 125).
Proof. reflexivity. Qed.

Example parseFloat_dot : parseFloatStr (str ".") = S754_nan.
Proof. reflexivity. Qed.

Example parseFloat_big : parseFloatStr (str "1e400") = S754_infinity false.
Proof. vm_compute. reflexivity. Qed.

Example parseFloat_tiny : parseFloatStr (str "-1e-400") = S754_zero true.
Proof. vm_compute. reflexivity. Qed.

(** Nothing checks the kinds of the body's values: a [clearExisting] that
    is the string [false] is truthy, so the handler purges; a [csvContent]
    that is a number is purged for, and then fails at [replace]. *)
Example string_false_purges :
  calls (EdgeFn.serve
           {| EdgeFn.method := str "POST";
              EdgeFn.json :=
                Return {| EdgeFn.csvContent := Some (JString scenarioHyphen);
                          EdgeFn.clearExisting := Some (JString (str "false")) |} |}
           (store [] noFaults)).2
  = [DeleteNeqId EdgeFn.nilUUID; InsertRows [acmeRecord]].
Proof. vm_compute. reflexivity. Qed.

Example number_as_csvContent :
  EdgeFn.serve
    {| EdgeFn.method := str "POST";
       EdgeFn.json :=
         Return {| EdgeFn.csvContent := Some (JNumber (numberOfZ 1));
                   EdgeFn.clearExisting := Some (JNumber (numberOfZ 1)) |} |}
    (store [] noFaults)
  = ({| EdgeFn.status := 500;
        EdgeFn.body :=
          EdgeFn.Failure (str "csvContent.replace is not a function") 0 0 1
            (str "Import failed") |},
     logCall (DeleteNeqId EdgeFn.nilUUID) (store [] noFaults)).
Proof. vm_compute. reflexivity. Qed.

(** * Properties *)

(** ** Strings *)

Lemma split_cons (sep : N) (s : jsstring) : ∃ w ws, split sep s = w :: ws.
Proof.
  destruct s as [|c s]; simpl; [by eauto|].
  destruct (c =? sep); [by eauto|].
  destruct (split sep s); eauto.
Qed.

Lemma split_app_sep (sep : N) (a b : jsstring) :
  Forall (λ c, c ≠ sep) a → split sep (a ++ sep :: b) = a :: split sep b.
Proof.
  induction 1 as [|c a Hc _ IH]; simpl.
  - by rewrite N.eqb_refl.
  - apply N.eqb_neq in Hc. by rewrite Hc, IH.
Qed.

Lemma split_no_sep (sep : N) (a : jsstring) :
  Forall (λ c, c ≠ sep) a → split sep a = [a].
Proof.
  induction 1 as [|c a Hc _ IH]; simpl; [done|].
  apply N.eqb_neq in Hc. by rewrite Hc, IH.
Qed.

(** Two string literals of the source differ. *)
Ltac str_ne := let H := fresh in intros H; vm_compute in H; discriminate H.

(** ** The set of seen keys and the row object *)

Lemma elem_of_setAdd (x key : jsstring) (keys : gset (list N)) :
  x ∈ setAdd key keys ↔ x = key ∨ x ∈ keys.
Proof.
  unfold setAdd, elem_of, gset_elem_of, mapset_elem_of; simpl.
  rewrite lookup_insert_Some. split.
  - intros [[-> _]|[_ ?]]; auto.
  - intros [->|?]; [by left|].
    destruct (decide (key = x)) as [->|]; [by left|by right].
Qed.

Lemma setAdd_union (key : jsstring) (keys : gset (list N)) :
  setAdd key keys = {[key]} ∪ keys.
Proof.
  apply set_eq. intros x. rewrite elem_of_setAdd, elem_of_union, elem_of_singleton.
  done.
Qed.

(** The row object holds, under every name but [__proto__], the column of
    that name. *)
Lemma forEachHeader_lookup (name : jsstring) (headers : list jsstring)
    (index : nat) (values : list jsstring) (row : gmap (list N) (list N)) :
  name ≠ str "__proto__" →
  forEachHeader headers index values row !! name =
    match fieldNamed name headers index values with
    | Some v => Some v
    | None => row !! name
    end.
Proof.
  intros Hname. revert index row.
  induction headers as [|header headers IH]; intros index row; simpl; [done|].
  rewrite IH. destruct (fieldNamed name headers (S index) values); [done|].
  unfold rowSet. destruct (decide (trim header = name)) as [->|Hne].
  - rewrite decide_False by done. by rewrite lookup_insert_eq.
  - destruct (decide (trim header = str "__proto__")); [done|].
    by rewrite lookup_insert_ne.
Qed.

Lemma buildRow_lookup (name : jsstring) (headers values : list jsstring) :
  name ≠ str "__proto__" →
  buildRow headers values !! name = fieldNamed name headers 0 values.
Proof.
  intros Hname. unfold buildRow. rewrite forEachHeader_lookup by done.
  destruct (fieldNamed name headers 0 values); [done|apply lookup_empty].
Qed.

(** ** The row loop of the edge function *)

Lemma importLine_Return (headers : list jsstring) (line : jsstring)
    (st st' : EdgeFn.RowLoop) :
  EdgeFn.importLine headers line st = Return st' → LineStep headers line st st'.
Proof.
  unfold EdgeFn.importLine.
  rewrite !buildRow_lookup by str_ne.
  destruct (allEmpty (split 59 line)) eqn:Hempty.
  { intros [= <-]. apply LineSkipped; [|done]. unfold eligible. by rewrite Hempty. }
  destruct (truthy (fieldNamed (str "pillar") headers 0 (split 59 line))) eqn:Hp; simpl.
  2:{ intros [= <-]. apply LineSkipped; [|done]. unfold eligible.
      by rewrite Hempty, Hp. }
  destruct (truthy (fieldNamed (str "brand_id") headers 0 (split 59 line))) eqn:Hb; simpl.
  2:{ intros [= <-]. apply LineSkipped; [|done]. unfold eligible.
      by rewrite Hempty, Hp, Hb. }
  assert (eligible headers line = true) as Hel.
  { unfold eligible. by rewrite Hempty, Hp, Hb. }
  destruct (EdgeFn.parseMonthToDate _) as [date|]; simpl; [|done].
  destruct (decide (_ ∈ _)) as [Hin|Hnin].
  { intros [= <-]. by apply LineDuplicate. }
  destruct (fieldNamed (str "tpv") headers 0 (split 59 line)) as [rawTpv|] eqn:Htpv;
    [|done].
  intros [= <-]. by eapply LineAccepted.
Qed.

Lemma parseRecords_unfold (csv : jsstring) :
  EdgeFn.parseRecords csv =
    EdgeFn.importLines (csvHeaders csv) (csvDataLines csv) initialLoop.
Proof.
  unfold EdgeFn.parseRecords, csvHeaders, csvDataLines, csvLines.
  destruct (split_cons 10 (trim (removeBOM csv))) as (h & t & ->). done.
Qed.

Lemma serverRecords_Return (csv : jsstring) (records : list MerchantRecord) :
  serverRecords csv = Return records →
  ∃ st, EdgeFn.parseRecords csv = Return st ∧ EdgeFn.records st = records.
Proof.
  unfold serverRecords. destruct (EdgeFn.parseRecords csv) as [st|]; simpl; [|done].
  intros [= <-]. eauto.
Qed.

(** Every line the loop gets through either does not count or adds one to
    [records.length + duplicatesSkipped]. *)
Lemma importLines_count (headers dataLines : list jsstring) (st st' : EdgeFn.RowLoop) :
  EdgeFn.importLines headers dataLines st = Return st' →
  (length (EdgeFn.records st') + EdgeFn.duplicates st' =
   length (EdgeFn.records st) + EdgeFn.duplicates st
   + length (filter (λ line, eligible headers line = true) dataLines))%nat.
Proof.
  revert st. induction dataLines as [|line dataLines IH]; intros st; simpl.
  { intros [= <-]. lia. }
  destruct (EdgeFn.importLine headers line st) as [st1|] eqn:Hline; simpl; [|done].
  intros Hrest. apply IH in Hrest. rewrite Hrest.
  apply importLine_Return in Hline.
  rewrite filter_cons.
  destruct Hline as [Hel ->|Hel Hr _ Hd|r rawTpv Hel Hr _ _ Hd _ _ _].
  - rewrite decide_False by congruence. lia.
  - rewrite decide_True by done. rewrite Hr, Hd. simpl. lia.
  - rewrite decide_True by done. rewrite Hr, Hd, length_app. simpl. lia.
Qed.

Lemma KeysDistinct_initial : KeysDistinct initialLoop.
Proof. split; simpl; [constructor|]. intros r Hr. by apply elem_of_nil in Hr. Qed.

Lemma KeysDistinct_step (headers : list jsstring) (line : jsstring)
    (st st' : EdgeFn.RowLoop) :
  LineStep headers line st st' → KeysDistinct st → KeysDistinct st'.
Proof.
  intros [_ ->|_ Hr Hs _|r rawTpv _ Hr Hnew Hs _ _ _ _] [Hnd Hseen]; [done|..].
  - split; rewrite Hr; [done|]. intros r ?. rewrite Hs. auto.
  - split; rewrite Hr.
    + rewrite fmap_app. simpl. apply NoDup_app. split; [done|]. split.
      * intros k Hk ->%list_elem_of_singleton.
        apply list_elem_of_fmap in Hk as (r' & Hkey & Hr').
        apply Hnew. rewrite Hkey. auto.
      * apply NoDup_singleton.
    + intros r' [Hr'| ->%list_elem_of_singleton]%elem_of_app;
        rewrite Hs; apply elem_of_setAdd; auto.
Qed.

Lemma importLines_KeysDistinct (headers dataLines : list jsstring)
    (st st' : EdgeFn.RowLoop) :
  EdgeFn.importLines headers dataLines st = Return st' →
  KeysDistinct st → KeysDistinct st'.
Proof.
  revert st. induction dataLines as [|line dataLines IH]; intros st; simpl.
  { by intros [= <-]. }
  destruct (EdgeFn.importLine headers line st) as [st1|] eqn:Hline; simpl; [|done].
  intros Hrest Hinv. apply (IH _ Hrest).
  eapply KeysDistinct_step; [|done]. by eapply importLine_Return.
Qed.

Lemma recordKey_identity (r1 r2 : MerchantRecord) :
  identity r1 = identity r2 → recordKey r1 = recordKey r2.
Proof. unfold identity, recordKey. by intros [= -> -> -> -> ->]. Qed.

(** ** The store *)

Lemma request_ok (c : Call) (w : World) :
  faults w (length (calls w)) = None →
  request c w = (Return None, logCall c (perform c w)).
Proof. intros H. unfold request. by rewrite H. Qed.

Lemma request_fail (c : Call) (w : World) (e : StoreErr) :
  faults w (length (calls w)) = Some e →
  request c w = (Return (Some e), logCall c w).
Proof. intros H. unfold request. by rewrite H. Qed.

(** A request adds itself to the log and leaves the fault plan alone; an
    insert only appends rows. *)
Lemma request_calls (c : Call) (w : World) :
  calls (request c w).2 = calls w ++ [c] ∧ faults (request c w).2 = faults w.
Proof. unfold request. by destruct (faults w _), c. Qed.

Lemma insertRows_rows (batch : list MerchantRecord) (w : World) :
  ∃ inserted, rows (insertRows batch w).2 = rows w ++ inserted.
Proof.
  unfold insertRows, request. destruct (faults w _); simpl.
  - exists []. by rewrite app_nil_r.
  - eauto.
Qed.

(** ** The batch loop *)

Lemma batchSize_pos : (0 < EdgeFn.batchSize)%nat.
Proof. unfold EdgeFn.batchSize. lia. Qed.

Lemma length_slice {A} (i j : nat) (l : list A) :
  length (slice i j l) = ((j - i) `min` (length l - i))%nat.
Proof. unfold slice. by rewrite length_take, length_drop. Qed.

Lemma insertLoop_done (fuel : nat) (recs : list MerchantRecord) (i t : nat) (w : World) :
  (length recs ≤ i)%nat → EdgeFn.insertLoop fuel recs i t w = (Return t, w).
Proof.
  intros Hi. destruct fuel; simpl; [done|].
  by rewrite (proj2 (Nat.ltb_ge _ _) Hi).
Qed.

Lemma insertLoop_step (fuel : nat) (recs : list MerchantRecord) (i t : nat) (w : World) :
  (i < length recs)%nat →
  EdgeFn.insertLoop (S fuel) recs i t w =
    (error <- insertRows (slice i (i + EdgeFn.batchSize) recs) ;;
     match error with
     | Some e => throw (StoreFailure e)
     | None =>
         EdgeFn.insertLoop fuel recs (i + EdgeFn.batchSize)
           (t + length (slice i (i + EdgeFn.batchSize) recs))
     end) w.
Proof.
  intros Hi. change (EdgeFn.insertLoop (S fuel) recs i t) with
    (if (i <? length recs)%nat then
       error <- insertRows (slice i (i + EdgeFn.batchSize) recs) ;;
       match error with
       | Some e => throw (StoreFailure e)
       | None =>
           EdgeFn.insertLoop fuel recs (i + EdgeFn.batchSize)
             (t + length (slice i (i + EdgeFn.batchSize) recs))
       end
     else ret t).
  by rewrite (proj2 (Nat.ltb_lt _ _) Hi).
Qed.

(** Enough fuel: any two amounts that cover the remaining batches give the
    same run, so the loop never stops for lack of fuel. *)
Lemma insertLoop_fuel (recs : list MerchantRecord) (fuel1 fuel2 i t : nat) (w : World) :
  (length recs ≤ i + fuel1 * EdgeFn.batchSize)%nat →
  (length recs ≤ i + fuel2 * EdgeFn.batchSize)%nat →
  EdgeFn.insertLoop fuel1 recs i t w = EdgeFn.insertLoop fuel2 recs i t w.
Proof.
  pose proof batchSize_pos as Hb.
  revert fuel2 i t w. induction fuel1 as [|fuel1 IH]; intros fuel2 i t w H1 H2.
  { rewrite !insertLoop_done; [done|lia..]. }
  destruct (decide (i < length recs)%nat) as [Hi|Hi].
  2:{ rewrite !insertLoop_done; [done|lia..]. }
  destruct fuel2 as [|fuel2]; [lia|].
  rewrite !insertLoop_step by done. unfold bind.
  destruct (insertRows _ w) as [[[e|]|e] w1]; [done| |done].
  apply IH; lia.
Qed.

Lemma insertBatches_fuel (recs : list MerchantRecord) (fuel : nat) (w : World) :
  (length recs ≤ fuel * EdgeFn.batchSize)%nat →
  EdgeFn.insertBatches recs w = EdgeFn.insertLoop fuel recs 0 0 w.
Proof.
  intros H. unfold EdgeFn.insertBatches. apply insertLoop_fuel; [|done].
  pose proof batchSize_pos. simpl. nia.
Qed.

(** The loop only appends to the table and to the log, and it returns when
    the store answers every request. *)
Lemma insertLoop_frame (fuel : nat) (recs : list MerchantRecord) (i t : nat) (w : World) :
  ∃ sent inserted,
    calls (EdgeFn.insertLoop fuel recs i t w).2 = calls w ++ sent
    ∧ rows (EdgeFn.insertLoop fuel recs i t w).2 = rows w ++ inserted
    ∧ ((∀ k, faults w k = None) → returns (EdgeFn.insertLoop fuel recs i t w).1).
Proof.
  revert i t w. induction fuel as [|fuel IH]; intros i t w.
  { exists [], []. simpl. by rewrite !app_nil_r. }
  destruct (decide (i < length recs)%nat) as [Hi|Hi].
  2:{ rewrite insertLoop_done by lia. exists [], []. simpl. by rewrite !app_nil_r. }
  rewrite insertLoop_step by done. unfold bind.
  set (batch := slice i (i + EdgeFn.batchSize) recs).
  destruct (request_calls (InsertRows batch) w) as [Hc Hf].
  destruct (insertRows_rows batch w) as [ins Hr].
  fold (insertRows batch) in Hc, Hf.
  destruct (insertRows batch w) as [[[e|]|e] w1] eqn:Hreq; simpl in *.
  - exists [InsertRows batch], ins. split_and!; [done..|].
    intros Hno. unfold insertRows in Hreq. rewrite request_ok in Hreq by done.
    by inversion Hreq.
  - destruct (IH (i + EdgeFn.batchSize)%nat (t + length batch)%nat w1)
      as (sent & ins' & Hc' & Hr' & Hret).
    exists (InsertRows batch :: sent), (ins ++ ins').
    rewrite Hc', Hr', Hc, Hr, <- !app_assoc. split_and!; [done..|].
    intros Hno. apply Hret. intros k. by rewrite Hf.
  - unfold insertRows, request in Hreq. by destruct (faults w _).
Qed.

Section ThreeBatches.
Variable recs : list MerchantRecord.
Hypothesis Hlen : length recs = 1200%nat.

Let b1 := slice 0 500 recs.
Let b2 := slice 500 1000 recs.
Let b3 := slice 1000 1500 recs.

Lemma batch_lengths : length b1 = 500%nat ∧ length b2 = 500%nat ∧ length b3 = 200%nat.
Proof. unfold b1, b2, b3. rewrite !length_slice, Hlen. lia. Qed.

Lemma insertBatches_three (w : World) :
  (∀ k, faults w k = None) →
  EdgeFn.insertBatches recs w =
    (Return 1200%nat,
     logCall (InsertRows b3) (perform (InsertRows b3)
       (logCall (InsertRows b2) (perform (InsertRows b2)
          (logCall (InsertRows b1) (perform (InsertRows b1) w)))))).
Proof.
  intros Hno. destruct batch_lengths as (H1 & H2 & H3).
  rewrite (insertBatches_fuel recs 3) by (unfold EdgeFn.batchSize; lia).
  rewrite insertLoop_step by lia.
  change (slice 0 (0 + EdgeFn.batchSize) recs) with b1.
  unfold bind, insertRows. rewrite request_ok by apply Hno.
  rewrite insertLoop_step by (unfold EdgeFn.batchSize; lia).
  change (slice (0 + EdgeFn.batchSize) (0 + EdgeFn.batchSize + EdgeFn.batchSize) recs)
    with b2.
  unfold bind, insertRows. rewrite request_ok by apply Hno.
  rewrite insertLoop_step by (unfold EdgeFn.batchSize; lia).
  change (slice (0 + EdgeFn.batchSize + EdgeFn.batchSize)
            (0 + EdgeFn.batchSize + EdgeFn.batchSize + EdgeFn.batchSize) recs)
    with b3.
  unfold bind, insertRows. rewrite request_ok by apply Hno.
  rewrite insertLoop_done by (unfold EdgeFn.batchSize; lia).
  rewrite H1, H2, H3. done.
Qed.

Lemma insertBatches_second_fails (w : World) (e : StoreErr) :
  faults w (length (calls w)) = None →
  faults w (S (length (calls w))) = Some e →
  EdgeFn.insertBatches recs w =
    (Throw (StoreFailure e),
     logCall (InsertRows b2) (logCall (InsertRows b1) (perform (InsertRows b1) w))).
Proof.
  intros Hok Hfail.
  rewrite (insertBatches_fuel recs 3) by (unfold EdgeFn.batchSize; lia).
  rewrite insertLoop_step by lia.
  change (slice 0 (0 + EdgeFn.batchSize) recs) with b1.
  unfold bind, insertRows. rewrite request_ok by done.
  rewrite insertLoop_step by (unfold EdgeFn.batchSize; lia).
  change (slice (0 + EdgeFn.batchSize) (0 + EdgeFn.batchSize + EdgeFn.batchSize) recs)
    with b2.
  unfold bind, insertRows.
  rewrite request_fail with (e := e); [done|].
  cbn [logCall perform calls faults]. rewrite length_app. cbn [length].
  by rewrite Nat.add_1_r.
Qed.
End ThreeBatches.

(** ** The import and the handler *)

Lemma importCheckoutData_unfold (csv : jsstring) (clearExisting : bool) :
  EdgeFn.importCheckoutData csv clearExisting =
    (purge clearExisting ;;
     st <- lift (EdgeFn.parseRecords csv) ;;
     totalInserted <- EdgeFn.insertBatches (EdgeFn.records st) ;;
     ret {| EdgeFn.imported := length (EdgeFn.records st);
            EdgeFn.duplicatesSkipped := EdgeFn.duplicates st;
            EdgeFn.cleared := clearExisting;
            EdgeFn.errors := 0;
            EdgeFn.message := str "Data imported successfully" |}).
Proof. reflexivity. Qed.

(** The same for arguments of any kind. *)
Lemma importCheckoutData_any (csvContent clearExisting : jsonValue) :
  EdgeFn.importCheckoutData csvContent clearExisting =
    (purge (toBoolean clearExisting) ;;
     text <- lift (replaceReceiver "csvContent.replace" csvContent) ;;
     st <- lift (EdgeFn.parseRecords text) ;;
     totalInserted <- EdgeFn.insertBatches (EdgeFn.records st) ;;
     ret {| EdgeFn.imported := length (EdgeFn.records st);
            EdgeFn.duplicatesSkipped := EdgeFn.duplicates st;
            EdgeFn.cleared := clearExisting;
            EdgeFn.errors := 0;
            EdgeFn.message := str "Data imported successfully" |}).
Proof. reflexivity. Qed.

Lemma purge_reliable (clearExisting : bool) (w : World) :
  (∀ k, faults w k = None) →
  ∃ w', purge clearExisting w = (Return tt, w') ∧ faults w' = faults w.
Proof.
  intros Hno. destruct clearExisting; simpl; [|by eexists].
  unfold bind, deleteNeqId. rewrite request_ok by done. by eexists.
Qed.

Lemma serve_post (c : N) (s : jsstring) (clear : option bool) (w : World) :
  EdgeFn.serve (post (c :: s) clear) w =
    match EdgeFn.importCheckoutData (c :: s) (default false clear) w with
    | (Return result, w') =>
        ({| EdgeFn.status := 200; EdgeFn.body := EdgeFn.Result result |}, w')
    | (Throw error, w') =>
        ({| EdgeFn.status := 500; EdgeFn.body := failureBody error |}, w')
    end.
Proof.
  unfold EdgeFn.serve, post.
  cbn [EdgeFn.method EdgeFn.json EdgeFn.csvContent EdgeFn.clearExisting].
  rewrite decide_False by str_ne.
  cbv beta iota delta [bind lift ret EdgeFn.csvContent EdgeFn.clearExisting toBoolean
                         isEmpty negb].
  destruct clear as [b|]; simpl;
    by destruct (EdgeFn.importCheckoutData (c :: s) _ w) as [[r|e] w'].
Qed.

(** ** Deduplication *)

(** C1. For every CSV text the deduplicating import gets through (the
    store answers every request, the row loop does not throw), the import
    returns, and [imported + duplicatesSkipped] is the number of data lines
    that are not all blank and whose [pillar] and [brand_id] columns are
    not empty after trimming. *)
Theorem dedup_counts (csv : jsstring) (clearExisting : bool) (w : World) :
  (∀ k, faults w k = None) →
  returns (EdgeFn.parseRecords csv) →
  ∃ result w',
    EdgeFn.importCheckoutData csv clearExisting w = (Return result, w')
    ∧ (EdgeFn.imported result + EdgeFn.duplicatesSkipped result)%nat =
      length (filter (λ line, eligible (csvHeaders csv) line = true) (csvDataLines csv)).
Proof.
  intros Hno Hparse. rewrite importCheckoutData_unfold.
  destruct (purge_reliable clearExisting w Hno) as (w1 & Hpurge & Hf1).
  destruct (EdgeFn.parseRecords csv) as [st|] eqn:Hst; [|done].
  unfold bind at 1. rewrite Hpurge. unfold bind at 1, lift.
  unfold bind, EdgeFn.insertBatches.
  destruct (insertLoop_frame (length (EdgeFn.records st)) (EdgeFn.records st) 0 0 w1)
    as (_ & _ & _ & _ & Hret).
  destruct (EdgeFn.insertLoop _ _ _ _ w1) as [[t|e] w2]; simpl in Hret.
  2:{ exfalso. apply Hret. intros k. by rewrite Hf1. }
  eexists _, _. split; [done|]. simpl.
  rewrite parseRecords_unfold in Hst. apply importLines_count in Hst.
  simpl in Hst. lia.
Qed.

Lemma dedup_counts_witness :
  ∃ result w',
    EdgeFn.importCheckoutData mixedCsv false (store [] noFaults) = (Return result, w')
    ∧ (EdgeFn.imported result + EdgeFn.duplicatesSkipped result)%nat =
      length (filter (λ line, eligible (csvHeaders mixedCsv) line = true)
                (csvDataLines mixedCsv)).
Proof.
  apply (dedup_counts mixedCsv false (store [] noFaults)).
  - intros k. reflexivity.
  - vm_compute. exact I.
Defined.

(** C8. Within one run, any two records the deduplicator accepted at
    different positions have different identity tuples (pillar, brand_id,
    merchant_name, product_type, date). *)
Theorem accepted_identities_distinct (csv : jsstring) (records : list MerchantRecord)
    (i j : nat) (r1 r2 : MerchantRecord) :
  serverRecords csv = Return records →
  records !! i = Some r1 →
  records !! j = Some r2 →
  i ≠ j →
  identity r1 ≠ identity r2.
Proof.
  intros (st & Hst & <-)%serverRecords_Return H1 H2 Hij Hid. apply Hij.
  rewrite parseRecords_unfold in Hst.
  apply importLines_KeysDistinct in Hst as [Hnd _]; [|apply KeysDistinct_initial].
  apply recordKey_identity in Hid.
  eapply NoDup_lookup; [exact Hnd|..]; rewrite list_lookup_fmap.
  - by rewrite H1.
  - rewrite H2. simpl. by rewrite Hid.
Qed.

Lemma accepted_identities_distinct_witness : identity acmeRecord ≠ identity boltRecord.
Proof.
  apply (accepted_identities_distinct mixedCsv [acmeRecord; boltRecord] 0 1).
  - vm_compute. reflexivity.
  - reflexivity.
  - reflexivity.
  - lia.
Defined.

(** C9. The deduplication key is the five identity fields joined with
    [-], and two rows with different identity tuples (a [-] inside
    [pillar] or inside [brand_id]) get the same key: imported together,
    the second is dropped and counted in [duplicatesSkipped]. *)
Theorem key_not_injective :
  (∀ p b m t d : jsstring,
     EdgeFn.uniqueKeyOf (Some p) (Some b) (Some m) (Some t) d
       = join (str "-") [p; b; m; t; d])
  ∧ acceptedIdentities (oneRow "a-b;P;c;M;1;1;jan-25") = Some [hyphenInPillar]
  ∧ acceptedIdentities (oneRow "a;P;b-c;M;1;1;jan-25") = Some [hyphenInBrand]
  ∧ hyphenInPillar ≠ hyphenInBrand
  ∧ keyOfIdentity hyphenInPillar = keyOfIdentity hyphenInBrand
  ∧ (EdgeFn.importCheckoutData
       (oneRow "a-b;P;c;M;1;1;jan-25" ++ newline ++ str "a;P;b-c;M;1;1;jan-25")
       false (store [] noFaults)).1
    = Return {| EdgeFn.imported := 1; EdgeFn.duplicatesSkipped := 1;
                EdgeFn.cleared := false; EdgeFn.errors := 0;
                EdgeFn.message := str "Data imported successfully" |}.
Proof.
  split; [reflexivity|].
  split_and!; [vm_compute; reflexivity..|str_ne|reflexivity|vm_compute; reflexivity].
Qed.

(** ** The scenario of the specification *)

(** C4, as amended. With the month token written [jan-25], the header
    followed twice by the same row imports one record and skips one
    duplicate, whatever the table held and whether or not it is purged. *)
Theorem scenario_with_hyphen_tokens (rs : list StoredRow) (clearExisting : bool) :
  (EdgeFn.importCheckoutData scenarioHyphen clearExisting (store rs noFaults)).1 =
    Return {| EdgeFn.imported := 1; EdgeFn.duplicatesSkipped := 1;
              EdgeFn.cleared := clearExisting; EdgeFn.errors := 0;
              EdgeFn.message := str "Data imported successfully" |}.
Proof. destruct clearExisting; vm_compute; reflexivity. Qed.

(** C4, as stated, fails: with the token [jan_25] the edge function throws
    on the first row (its handler answers 500), and the direct-call import,
    which does not deduplicate, imports both rows. *)
Lemma scenario_with_underscore_tokens :
  (EdgeFn.importCheckoutData scenarioUnderscore false (store [] noFaults)).1
    = Throw (undefinedRead "length")
  ∧ (EdgeFn.serve (post scenarioUnderscore None) (store [] noFaults)).1
    = {| EdgeFn.status := 500;
         EdgeFn.body := failureBody (undefinedRead "length") |}
  ∧ (Client.importCheckoutData scenarioUnderscore (store [] noFaults)).1
    = {| Client.imported := 2; Client.skipped := 0; Client.errors := 0;
         Client.message := str "Data imported successfully" |}.
Proof. vm_compute. auto. Qed.

(** ** Dates *)

Lemma lookupTable_month_letters (key mm : jsstring) :
  lookupTable monthTable key = Some mm →
  Forall (λ c, 0x61 ≤ c ≤ 0x7A) key.
Proof.
  unfold monthTable. simpl.
  repeat (destruct (decide _) as [<-|_];
          [intros _; vm_compute; repeat constructor; discriminate|]).
  done.
Qed.

Lemma toLowerCase_no_hyphen (m : jsstring) :
  Forall (λ c, 0x61 ≤ c ≤ 0x7A) (toLowerCase m) → Forall (λ c, c ≠ 0x2D) m.
Proof.
  unfold toLowerCase. rewrite Forall_map. intros H.
  eapply Forall_impl; [exact H|]. intros c Hc ->. simpl in Hc. lia.
Qed.

Lemma digits_no_hyphen (year : jsstring) :
  Forall (λ c, isDigit c = true) year → Forall (λ c, c ≠ 0x2D) year.
Proof.
  intros H. eapply Forall_impl; [exact H|].
  intros c Hc ->. vm_compute in Hc. discriminate.
Qed.

(** C2, as amended. On the server-side path, a token [month-year] whose
    month is one of the twelve abbreviations in any letter case and whose
    year has 2 digits is normalised to [20] + year + [-mm-01], the first
    day of the month. *)
Theorem two_digit_year_prefixed (m year mm : jsstring) :
  lookupTable monthTable (toLowerCase m) = Some mm →
  length year = 2%nat →
  Forall (λ c, isDigit c = true) year →
  EdgeFn.parseMonthToDate (Some (m ++ str "-" ++ year)) =
    Return (str "20" ++ year ++ str "-" ++ mm ++ str "-01").
Proof.
  intros Hmonth Hlen Hdigits.
  pose proof (toLowerCase_no_hyphen m (lookupTable_month_letters _ _ Hmonth)) as Hm.
  unfold EdgeFn.parseMonthToDate.
  change (m ++ str "-" ++ year) with (m ++ 0x2D :: year).
  rewrite split_app_sep by done.
  rewrite (split_no_sep _ year) by by apply digits_no_hyphen.
  simpl. rewrite Hlen. simpl.
  unfold monthMap. by rewrite Hmonth.
Qed.

Lemma two_digit_year_prefixed_witness :
  EdgeFn.parseMonthToDate (Some (str "Jan" ++ str "-" ++ str "25")) =
    Return (str "20" ++ str "25" ++ str "-" ++ str "01" ++ str "-01").
Proof.
  apply (two_digit_year_prefixed (str "Jan") (str "25") (str "01")).
  - reflexivity.
  - reflexivity.
  - repeat constructor.
Defined.

(** C2, as stated, fails on the token [jan_25]: the server-side path
    throws (there is no [-] to split on), and the client-side path gives
    [25-01-01]. *)
Lemma underscore_token_not_2025 :
  EdgeFn.parseMonthToDate (Some (str "jan_25")) = Throw (undefinedRead "length")
  ∧ Client.parseMonthToDate (Some (str "jan_25")) = Return (str "25-01-01")
  ∧ str "25-01-01" ≠ str "2025-01-01".
Proof. split_and!; [reflexivity..|str_ne]. Qed.

(** ** Numbers *)

(** C3 at its failing input. A [tpv] field [1,234,567] becomes 1234567 on
    the server-side path and 1 on the client-side path, which does not
    strip the commas; [abc] and an empty [tpt] become 0 on both. *)
Theorem client_keeps_thousands_separators :
  amounts (serverRecords (oneRow "W;P;B1;Acme;;1,234,567;jan-25"))
    = Some [(S754_zero false, numberOfZ 1234567)]
  ∧ amounts (serverRecords (oneRow "W;P;B1;Acme;;abc;jan-25"))
    = Some [(S754_zero false, S754_zero false)]
  ∧ amounts (Client.parseRecords (oneRow "W;P;B1;Acme;;abc;jan_25"))
    = Some [(S754_zero false, S754_zero false)]
  ∧ amounts (Client.parseRecords (oneRow "W;P;B1;Acme;;1,234,567;jan_25"))
    = Some [(S754_zero false, numberOfZ 1)]
  ∧ integerValue (numberOfZ 1234567) = Some 1234567%Z
  ∧ integerValue (numberOfZ 1) = Some 1%Z.
Proof. vm_compute. auto 10. Qed.

Lemma binary_round_aux_sign (s : bool) (m e : Z) (l : location) :
  match binary_round_aux prec emax s m e l with
  | S754_zero s' | S754_infinity s' | S754_finite s' _ _ => s' = s
  | S754_nan => True
  end.
Proof.
  unfold binary_round_aux.
  destruct (shr_fexp prec emax m e l) as [mrs e1].
  destruct (shr_fexp prec emax _ e1 loc_Exact) as [mrs' e2].
  destruct (shr_m mrs'); [done| |done]. by destruct (_ <=? _)%Z.
Qed.

Lemma nonNegative_orZero (x : number) :
  match x with
  | S754_zero s | S754_infinity s | S754_finite s _ _ => s = false
  | S754_nan => True
  end →
  nonNegative (orZero x).
Proof. destruct x as [s|s| |s m e]; simpl; intros H; subst; done. Qed.

Lemma roundDecimal_sign (s : bool) (m : positive) (e : Z) :
  match roundDecimal s m e with
  | S754_zero s' | S754_infinity s' | S754_finite s' _ _ => s' = s
  | S754_nan => True
  end.
Proof.
  unfold roundDecimal. destruct e as [|k|k].
  - unfold binary_normalize.
    destruct s; simpl; unfold binary_round;
      destruct (shl_align _ _ _); apply binary_round_aux_sign.
  - unfold binary_normalize.
    assert (0 < Z.pos m * 10 ^ Z.pos k)%Z as Hpos by lia.
    destruct (Z.pos m * 10 ^ Z.pos k)%Z as [|p|p] eqn:Hp; [lia| |lia].
    destruct s; simpl; unfold binary_round;
      destruct (shl_align _ _ _); apply binary_round_aux_sign.
  - destruct (SFdiv_core_binary _ _ _ _ _ _) as [[q e'] l].
    apply binary_round_aux_sign.
Qed.

Lemma unsignedDecimalLiteral_sign (s : bool) (t : jsstring) :
  match unsignedDecimalLiteral s t with
  | S754_zero s' | S754_infinity s' | S754_finite s' _ _ => s' = s
  | S754_nan => True
  end.
Proof.
  unfold unsignedDecimalLiteral. case_decide; [done|].
  destruct (takeDigits t) as [ip r].
  destruct (match r with
            | 0x2E :: t0 => takeDigits t0
            | _ => ([], r)
            end) as [fp r'].
  destruct ip, fp; try done;
    match goal with |- context [match ?m with Zpos _ => _ | _ => _ end] =>
      destruct m; try done; apply roundDecimal_sign end.
Qed.

Lemma orZero_not_nan (x : number) : orZero x ≠ S754_nan.
Proof. by destruct x. Qed.

(** A field that does not start with a minus sign coerces to a number
    that is not negative. *)
Lemma coerce_nonNegative (s : jsstring) :
  leadingMinus s = false → nonNegative (orZero (parseFloatStr s)).
Proof.
  unfold leadingMinus, parseFloatStr. intros Hs. apply nonNegative_orZero.
  destruct (trimStart s) as [|c t]; [apply unsignedDecimalLiteral_sign|].
  rewrite Hs. destruct (c =? 0x2B); apply unsignedDecimalLiteral_sign.
Qed.

Lemma app_singleton_inv {A} (l : list A) (x y : A) : l ++ [x] = l ++ [y] → x = y.
Proof. intros H. apply app_inv_head in H. by inversion H. Qed.

Lemma app_singleton_ne {A} (l : list A) (x : A) : l ≠ l ++ [x].
Proof.
  intros H. apply (f_equal length) in H. rewrite length_app in H. simpl in H. lia.
Qed.

Lemma server_emits_amounts (headers : list jsstring) (line : jsstring) (r : MerchantRecord) :
  emits ServerPath headers line r →
  ∃ rawTpv,
    fieldNamed (str "tpv") headers 0 (split 0x3B line) = Some rawTpv
    ∧ tpt r = orZero (parseFloat (fieldNamed (str "tpt") headers 0 (split 0x3B line)))
    ∧ tpv r = orZero (parseFloatStr (removeCommas rawTpv)).
Proof.
  intros (st & st' & Hline & Hrecs). apply importLine_Return in Hline.
  destruct Hline as [_ ->|_ Hr _ _|r' rawTpv _ Hr _ _ _ Htpt Hraw Htpv].
  - by apply app_singleton_ne in Hrecs.
  - rewrite Hr in Hrecs. by apply app_singleton_ne in Hrecs.
  - rewrite Hr in Hrecs. apply app_singleton_inv in Hrecs as ->. eauto.
Qed.

Lemma client_emits_amounts (headers : list jsstring) (line : jsstring) (r : MerchantRecord) :
  emits ClientPath headers line r →
  tpt r = orZero (parseFloat (fieldNamed (str "tpt") headers 0 (split 0x3B line)))
  ∧ tpv r = orZero (parseFloat (fieldNamed (str "tpv") headers 0 (split 0x3B line))).
Proof.
  intros (records & Hline). revert Hline. unfold Client.importLine.
  rewrite !buildRow_lookup by str_ne.
  destruct (allEmpty _); [by intros [= ?%app_singleton_ne]|].
  destruct (_ || _); [by intros [= ?%app_singleton_ne]|].
  destruct (Client.parseMonthToDate _) as [date|]; simpl; [|done].
  by intros [= <-%app_singleton_inv].
Qed.

(** C7, as amended. On either path, the [tpt] and the [tpv] of the record
    made from a line are numbers, never [NaN], and each of the two is
    [>= 0] whenever the text handed to [parseFloat] for its own column
    does not start, after white space, with a minus sign. *)
Theorem amounts_nonnegative_without_minus (path : Path) (headers : list jsstring)
    (line : jsstring) (r : MerchantRecord) :
  emits path headers line r →
  (tpt r ≠ S754_nan ∧ tpv r ≠ S754_nan)
  ∧ (leadingMinus (interp (fieldNamed (str "tpt") headers 0 (split 0x3B line))) = false →
     nonNegative (tpt r))
  ∧ (leadingMinus
       (tpvText path (interp (fieldNamed (str "tpv") headers 0 (split 0x3B line))))
       = false →
     nonNegative (tpv r)).
Proof.
  intros Hemit. destruct path; simpl.
  - apply server_emits_amounts in Hemit as (rawTpv & Hraw & -> & ->).
    rewrite Hraw. simpl. split_and!; [apply orZero_not_nan..| |];
      intros Hsign; by apply coerce_nonNegative.
  - apply client_emits_amounts in Hemit as [-> ->].
    split_and!; [apply orZero_not_nan..| |];
      intros Hsign; by apply coerce_nonNegative.
Qed.

Lemma amounts_nonnegative_without_minus_witness :
  (tpt refundRecord ≠ S754_nan ∧ tpv refundRecord ≠ S754_nan)
  ∧ nonNegative (tpv refundRecord).
Proof.
  destruct (amounts_nonnegative_without_minus ServerPath (csvHeaders sampleHeader)
              (str "Cards;PayChat;B3;Bolt;-5;7;feb-2025") refundRecord)
    as (Hnumbers & _ & Htpv).
  - exists initialLoop.
    exists {| EdgeFn.records := [refundRecord];
              EdgeFn.seenKeys := setAdd (recordKey refundRecord) ∅;
              EdgeFn.duplicates := 0 |}.
    split; vm_compute; reflexivity.
  - split; [exact Hnumbers|]. apply Htpv. vm_compute. reflexivity.
Defined.

(** C7, as stated, fails: a row with [tpt = -5] and [tpv = -1,000] is
    accepted with the amounts -5 and -1000 (-5 and -1 on the client-side
    path). *)
Lemma negative_amounts_pass_through :
  amounts (serverRecords (oneRow "Cards;PayChat;B3;Bolt;-5;-1,000;feb-2025"))
    = Some [(SFopp (numberOfZ 5), SFopp (numberOfZ 1000))]
  ∧ amounts (Client.parseRecords (oneRow "Cards;PayChat;B3;Bolt;-5;-1,000;feb_2025"))
    = Some [(SFopp (numberOfZ 5), SFopp (numberOfZ 1))]
  ∧ ¬ nonNegative (SFopp (numberOfZ 5))
  ∧ ¬ nonNegative (SFopp (numberOfZ 1000))
  ∧ ¬ nonNegative (SFopp (numberOfZ 1)).
Proof. vm_compute. split_and!; (reflexivity || discriminate). Qed.

(** ** Purge *)

(** C6. When the reload flag is set and the purge request fails, the import
    throws the store's error whatever the CSV text is; the only request
    sent is the delete, no insert follows, and the table is as before. *)
Theorem purge_failure_aborts (csv : jsstring) (w : World) (e : StoreErr) :
  faults w (length (calls w)) = Some e →
  EdgeFn.importCheckoutData csv true w =
    (Throw (StoreFailure e), logCall (DeleteNeqId EdgeFn.nilUUID) w)
  ∧ rows (logCall (DeleteNeqId EdgeFn.nilUUID) w) = rows w
  ∧ insertSizes (calls (logCall (DeleteNeqId EdgeFn.nilUUID) w)) = insertSizes (calls w).
Proof.
  intros Hfail. split_and!; [|done|].
  - rewrite importCheckoutData_unfold. simpl.
    unfold bind, deleteNeqId. by rewrite request_fail with (e := e).
  - unfold insertSizes. simpl. rewrite omap_app. simpl. by rewrite app_nil_r.
Qed.

Lemma purge_failure_aborts_witness :
  EdgeFn.importCheckoutData mixedCsv true (store sampleTable (failAt 0 sampleError)) =
    (Throw (StoreFailure sampleError),
     logCall (DeleteNeqId EdgeFn.nilUUID) (store sampleTable (failAt 0 sampleError)))
  ∧ rows (logCall (DeleteNeqId EdgeFn.nilUUID) (store sampleTable (failAt 0 sampleError)))
    = rows (store sampleTable (failAt 0 sampleError))
  ∧ insertSizes
      (calls (logCall (DeleteNeqId EdgeFn.nilUUID)
                (store sampleTable (failAt 0 sampleError))))
    = insertSizes (calls (store sampleTable (failAt 0 sampleError))).
Proof.
  apply (purge_failure_aborts mixedCsv (store sampleTable (failAt 0 sampleError))
           sampleError).
  reflexivity.
Defined.

Lemma freshRows_app (uuids : nat → jsstring) (n : nat) (b1 b2 : list MerchantRecord) :
  freshRows uuids n (b1 ++ b2)
  = freshRows uuids n b1 ++ freshRows uuids (n + length b1) b2.
Proof.
  revert n. induction b1 as [|r b1 IH]; intros n; simpl.
  - by rewrite Nat.add_0_r.
  - by rewrite IH, Nat.add_succ_r.
Qed.

(** The batch loop only appends rows: one fresh row per record of the
    inserts that the store carried out. *)
Lemma insertLoop_carriedOut (fuel : nat) (recs : list MerchantRecord) (i t : nat)
    (w : World) :
  ∃ sent,
    calls (EdgeFn.insertLoop fuel recs i t w).2 = calls w ++ sent
    ∧ rows (EdgeFn.insertLoop fuel recs i t w).2 =
        rows w ++ freshRows (uuids w) (next_uuid w)
                    (carriedOut (faults w) (length (calls w)) sent).
Proof.
  revert i t w. induction fuel as [|fuel IH]; intros i t w.
  { exists []. simpl. by rewrite !app_nil_r. }
  destruct (decide (i < length recs)%nat) as [Hi|Hi].
  2:{ rewrite insertLoop_done by lia. exists []. simpl. by rewrite !app_nil_r. }
  rewrite insertLoop_step by done. unfold bind, insertRows, request.
  set (batch := slice i (i + EdgeFn.batchSize) recs).
  destruct (faults w (length (calls w))) as [e|] eqn:Hfault; cbn [fst snd throw].
  { exists [InsertRows batch]. simpl. by rewrite Hfault, app_nil_r. }
  match goal with |- context [EdgeFn.insertLoop fuel recs ?i' ?t' ?w1] =>
    destruct (IH i' t' w1) as (sent & Hc & Hr) end.
  exists (InsertRows batch :: sent). rewrite Hc, Hr.
  cbn [calls rows uuids next_uuid faults logCall perform carriedOut].
  rewrite Hfault, length_app, Nat.add_1_r, freshRows_app, <- !app_assoc. done.
Qed.

Lemma freshRows_id (uuids : nat → jsstring) (n : nat) (b : list MerchantRecord)
    (r : StoredRow) :
  r ∈ freshRows uuids n b → ∃ k, id r = uuids k.
Proof.
  revert n. induction b as [|x b IH]; intros n; simpl.
  - by intros ?%elem_of_nil.
  - intros [->|Hin]%elem_of_cons; [by exists n|]. by eapply IH.
Qed.

(** C10. When [clearExisting] is true and the purge request succeeds, the
    delete is filtered on [id <> nil UUID]: after the run the table holds
    exactly the old rows whose [id] is the nil UUID, in their order,
    followed by one fresh row per record of the inserts that the store
    carried out. So an old row under the nil UUID is still there, and an
    old row under any other [id] is gone (unless the store hands out that
    [id] again for a new row). *)
Theorem purge_spares_nil_uuid (csv : jsstring) (w : World) :
  faults w (length (calls w)) = None →
  ∃ sent,
    calls (EdgeFn.importCheckoutData csv true w).2 =
      calls w ++ DeleteNeqId EdgeFn.nilUUID :: sent
    ∧ rows (EdgeFn.importCheckoutData csv true w).2 =
        filter (λ r, id r = EdgeFn.nilUUID) (rows w)
        ++ freshRows (uuids w) (next_uuid w)
             (carriedOut (faults w) (S (length (calls w))) sent)
    ∧ (∀ r, r ∈ rows w → id r = EdgeFn.nilUUID →
            r ∈ rows (EdgeFn.importCheckoutData csv true w).2)
    ∧ (∀ r, r ∈ rows w → id r ≠ EdgeFn.nilUUID → (∀ k, uuids w k ≠ id r) →
            r ∉ rows (EdgeFn.importCheckoutData csv true w).2).
Proof.
  intros Hok.
  assert (∃ sent,
    calls (EdgeFn.importCheckoutData csv true w).2 =
      calls w ++ DeleteNeqId EdgeFn.nilUUID :: sent
    ∧ rows (EdgeFn.importCheckoutData csv true w).2 =
        filter (λ r, id r = EdgeFn.nilUUID) (rows w)
        ++ freshRows (uuids w) (next_uuid w)
             (carriedOut (faults w) (S (length (calls w))) sent))
    as (sent & Hc & Hr).
  { rewrite importCheckoutData_unfold.
    cbv beta iota delta [bind purge deleteNeqId lift EdgeFn.insertBatches ret throw].
    rewrite request_ok by done.
    destruct (EdgeFn.parseRecords csv) as [st|e].
    2:{ exists []. simpl. by rewrite app_nil_r. }
    match goal with |- context [EdgeFn.insertLoop ?f ?r 0 0 ?w1] =>
      destruct (insertLoop_carriedOut f r 0 0 w1) as (sent & Hc & Hr);
      destruct (EdgeFn.insertLoop f r 0 0 w1) as [[t|e] w2]
    end; cbn [fst snd] in *; exists sent; rewrite Hc, Hr;
      cbn [calls rows uuids next_uuid faults logCall perform];
      rewrite length_app, Nat.add_1_r, <- app_assoc; done. }
  exists sent. split_and!; [done..| |].
  - intros r Hin Hid. rewrite Hr. apply elem_of_app. left.
    by apply list_elem_of_filter.
  - intros r Hin Hid Hfresh. rewrite Hr.
    intros [[? _]%list_elem_of_filter|[k Hk]%freshRows_id]%elem_of_app; [done|].
    by apply (Hfresh k).
Qed.

Lemma purge_spares_nil_uuid_witness :
  ∃ sent,
    calls (EdgeFn.importCheckoutData scenarioHyphen true (store sampleTable noFaults)).2 =
      calls (store sampleTable noFaults) ++ DeleteNeqId EdgeFn.nilUUID :: sent
    ∧ rows (EdgeFn.importCheckoutData scenarioHyphen true (store sampleTable noFaults)).2 =
        filter (λ r, id r = EdgeFn.nilUUID) (rows (store sampleTable noFaults))
        ++ freshRows (uuids (store sampleTable noFaults))
             (next_uuid (store sampleTable noFaults))
             (carriedOut (faults (store sampleTable noFaults))
                (S (length (calls (store sampleTable noFaults)))) sent)
    ∧ (∀ r, r ∈ rows (store sampleTable noFaults) → id r = EdgeFn.nilUUID →
            r ∈ rows (EdgeFn.importCheckoutData scenarioHyphen true
                        (store sampleTable noFaults)).2)
    ∧ (∀ r, r ∈ rows (store sampleTable noFaults) → id r ≠ EdgeFn.nilUUID →
            (∀ k, uuids (store sampleTable noFaults) k ≠ id r) →
            r ∉ rows (EdgeFn.importCheckoutData scenarioHyphen true
                        (store sampleTable noFaults)).2).
Proof.
  apply (purge_spares_nil_uuid scenarioHyphen (store sampleTable noFaults)).
  reflexivity.
Defined.

(** ** Batches *)

(** C5, as amended. An import whose row loop accepts 1200 records sends
    three inserts, of the records 0-499, 500-999 and 1000-1199, one after
    the other. When the store fails the second one, no third is sent, the
    first 500 records stay in the table, the import throws the store's
    error, and the handler answers 500 with [imported: 0]. *)
Theorem second_batch_failure (csv : jsstring) (rs : list StoredRow) (e : StoreErr) :
  parsedCount csv = Some 1200%nat →
  ∃ st,
    EdgeFn.parseRecords csv = Return st ∧
    let b1 := slice 0 500 (EdgeFn.records st) in
    let b2 := slice 500 1000 (EdgeFn.records st) in
    let b3 := slice 1000 1500 (EdgeFn.records st) in
    (length b1 = 500 ∧ length b2 = 500 ∧ length b3 = 200)%nat
    ∧ (∃ result w',
         EdgeFn.importCheckoutData csv false (store rs noFaults) = (Return result, w')
         ∧ EdgeFn.imported result = 1200%nat
         ∧ calls w' = [InsertRows b1; InsertRows b2; InsertRows b3])
    ∧ (∃ w',
         EdgeFn.importCheckoutData csv false (store rs (failAt 1 e))
           = (Throw (StoreFailure e), w')
         ∧ calls w' = [InsertRows b1; InsertRows b2]
         ∧ rows w' = rs ++ freshRows decimal 0 b1
         ∧ EdgeFn.serve (post csv None) (store rs (failAt 1 e))
           = ({| EdgeFn.status := 500; EdgeFn.body := failureBody (StoreFailure e) |}, w')).
Proof.
  intros Hcount. unfold parsedCount in Hcount.
  destruct (EdgeFn.parseRecords csv) as [st|] eqn:Hst; [|done].
  injection Hcount as Hlen. exists st. split; [done|]. intros b1 b2 b3.
  split; [by apply batch_lengths|]. split.
  - eexists _, _. rewrite importCheckoutData_unfold.
    cbv beta iota delta [bind purge lift ret]. rewrite Hst.
    rewrite (insertBatches_three _ Hlen) by done. done.
  - assert (EdgeFn.importCheckoutData csv false (store rs (failAt 1 e)) =
              (Throw (StoreFailure e),
               logCall (InsertRows b2) (logCall (InsertRows b1)
                 (perform (InsertRows b1) (store rs (failAt 1 e)))))) as Hrun.
    { rewrite importCheckoutData_unfold.
      cbv beta iota delta [bind purge lift ret]. rewrite Hst.
      by rewrite (insertBatches_second_fails _ Hlen _ e). }
    eexists. split; [exact Hrun|]. split_and!; [done..|].
    destruct csv as [|c s]; [vm_compute in Hst; by inversion Hst; subst|].
    rewrite serve_post. simpl default. by rewrite Hrun.
Qed.

Lemma second_batch_failure_witness :
  ∃ st,
    EdgeFn.parseRecords (uniqueCsv 1200) = Return st ∧
    let b1 := slice 0 500 (EdgeFn.records st) in
    let b2 := slice 500 1000 (EdgeFn.records st) in
    let b3 := slice 1000 1500 (EdgeFn.records st) in
    (length b1 = 500 ∧ length b2 = 500 ∧ length b3 = 200)%nat
    ∧ (∃ result w',
         EdgeFn.importCheckoutData (uniqueCsv 1200) false (store [] noFaults)
           = (Return result, w')
         ∧ EdgeFn.imported result = 1200%nat
         ∧ calls w' = [InsertRows b1; InsertRows b2; InsertRows b3])
    ∧ (∃ w',
         EdgeFn.importCheckoutData (uniqueCsv 1200) false (store [] (failAt 1 sampleError))
           = (Throw (StoreFailure sampleError), w')
         ∧ calls w' = [InsertRows b1; InsertRows b2]
         ∧ rows w' = [] ++ freshRows decimal 0 b1
         ∧ EdgeFn.serve (post (uniqueCsv 1200) None) (store [] (failAt 1 sampleError))
           = ({| EdgeFn.status := 500;
                 EdgeFn.body := failureBody (StoreFailure sampleError) |}, w')).
Proof.
  apply (second_batch_failure (uniqueCsv 1200) [] sampleError).
  vm_compute. reflexivity.
Defined.

(** C5, as stated, fails: with 1200 accepted records and the second insert
    failing, the handler's answer reports [imported: 0], not 500. *)
Lemma second_batch_failure_reports_zero :
  parsedCount (uniqueCsv 1200) = Some 1200%nat
  ∧ (EdgeFn.serve (post (uniqueCsv 1200) None) (store [] (failAt 1 sampleError))).1
    = {| EdgeFn.status := 500;
         EdgeFn.body := EdgeFn.Failure (str "Import failed") 0 0 1 (str "Import failed") |}.
Proof. vm_compute. auto. Qed.

(** * Further properties of the import *)

(** ** Trimming and splitting *)

Lemma trimStart_blank (s : jsstring) :
  Forall (λ c, isWhiteSpace c = true) s → trimStart s = [].
Proof. induction 1 as [|c s Hc _ IH]; simpl; [done|]. by rewrite Hc. Qed.

Lemma trim_blank (s : jsstring) :
  Forall (λ c, isWhiteSpace c = true) s → trim s = [].
Proof. intros H. unfold trim. by rewrite trimStart_blank. Qed.

Lemma trimEnd_snoc (s : jsstring) (c : N) :
  isWhiteSpace c = true → trimEnd (s ++ [c]) = trimEnd s.
Proof.
  intros Hc. induction s as [|a s IH]; simpl; [by rewrite Hc|]. by rewrite IH.
Qed.

Lemma trimStart_snoc (s : jsstring) (c : N) :
  isWhiteSpace c = true →
  trimStart (s ++ [c]) = match trimStart s with [] => [] | t => t ++ [c] end.
Proof.
  intros Hc. induction s as [|a s IH]; simpl; [by rewrite Hc|].
  destruct (isWhiteSpace a); [done|]. done.
Qed.

Lemma trim_snoc (s : jsstring) (c : N) :
  isWhiteSpace c = true → trim (s ++ [c]) = trim s.
Proof.
  intros Hc. unfold trim. rewrite trimStart_snoc by done.
  destruct (trimStart s) as [|a t]; [done|].
  by rewrite (trimEnd_snoc (a :: t)).
Qed.

Lemma trim_removeBOM (s : jsstring) : trim (removeBOM s) = trim s.
Proof.
  destruct s as [|c s]; [done|]. simpl.
  destruct (c =? 0xFEFF) eqn:Hc; [|done].
  apply N.eqb_eq in Hc as ->. done.
Qed.

Lemma split_pieces (P : N → Prop) (sep : N) (s : jsstring) :
  Forall (λ c, c = sep ∨ P c) s → Forall (Forall P) (split sep s).
Proof.
  induction 1 as [|c s Hc _ IH]; simpl; [by repeat constructor|].
  destruct (c =? sep) eqn:Hsep; [by constructor|].
  apply N.eqb_neq in Hsep. destruct Hc as [?|Hc]; [done|].
  destruct (split sep s) as [|w ws]; [by repeat constructor|].
  inversion IH; subst. by repeat constructor.
Qed.

Lemma split_snoc (sep c : N) (s : jsstring) :
  c ≠ sep →
  ∃ ws w, split sep s = ws ++ [w] ∧ split sep (s ++ [c]) = ws ++ [w ++ [c]].
Proof.
  intros Hc. apply N.eqb_neq in Hc.
  induction s as [|a s (ws & w & Hs & Hsc)]; simpl.
  { exists [], []. by rewrite Hc. }
  destruct (a =? sep).
  { exists ([] :: ws), w. by rewrite Hs, Hsc. }
  rewrite Hs, Hsc. destruct ws as [|x ws]; simpl.
  - by exists [], (a :: w).
  - by exists ((a :: x) :: ws), w.
Qed.

(** ** What a line contributes depends on its trimmed fields only *)

Lemma fieldAt_trimmed (values : list jsstring) (index : nat) :
  fieldAt values index = default [] ((trim <$> values) !! index).
Proof.
  unfold fieldAt. rewrite list_lookup_fmap.
  destruct (values !! index) as [v|]; simpl; [|done]. by destruct (trim v).
Qed.

Lemma allEmpty_trimmed (values : list jsstring) :
  allEmpty values = forallb isEmpty (trim <$> values).
Proof.
  unfold allEmpty. induction values as [|v values IH]; simpl; [done|].
  rewrite IH. by destruct v.
Qed.

Lemma forEachHeader_trimmed (headers : list jsstring) (index : nat)
    (values values' : list jsstring) (row : gmap (list N) (list N)) :
  trim <$> values = trim <$> values' →
  forEachHeader headers index values row = forEachHeader headers index values' row.
Proof.
  intros H. revert index row.
  induction headers as [|h headers IH]; intros index row; simpl; [done|].
  by rewrite IH, !fieldAt_trimmed, H.
Qed.

Lemma buildRow_trimmed (headers values values' : list jsstring) :
  trim <$> values = trim <$> values' →
  buildRow headers values = buildRow headers values'.
Proof. apply forEachHeader_trimmed. Qed.

(** X1. White space around the fields of a line is not significant: two
    lines whose fields are equal after trimming are imported alike, on all
    three paths. *)
Theorem line_read_through_trimmed_fields (headers : list jsstring)
    (line line' : jsstring) :
  trim <$> split 0x3B line = trim <$> split 0x3B line' →
  (∀ st, EdgeFn.importLine headers line st = EdgeFn.importLine headers line' st)
  ∧ (∀ records, ImportData.importLine headers line records
                = ImportData.importLine headers line' records)
  ∧ (∀ records, Client.importLine headers line records
                = Client.importLine headers line' records).
Proof.
  intros H.
  unfold EdgeFn.importLine, ImportData.importLine, Client.importLine.
  rewrite !allEmpty_trimmed, H.
  rewrite (buildRow_trimmed headers _ _ H). done.
Qed.

(** A carriage return left at the end of a line by a CRLF file is trimmed
    away with the last field. *)
Lemma crlf_fields (line : jsstring) :
  trim <$> split 0x3B (line ++ [0x0D]) = trim <$> split 0x3B line.
Proof.
  destruct (split_snoc 0x3B 0x0D line) as (ws & w & -> & ->); [done|].
  rewrite !fmap_app. simpl. by rewrite trim_snoc.
Qed.

Lemma line_read_through_trimmed_fields_witness :
  (∀ st, EdgeFn.importLine (csvHeaders sampleHeader)
           (str " Cards ; PayChat;B3 ;Bolt; 5;7 ;feb-2025" ++ [0x0D]) st
         = EdgeFn.importLine (csvHeaders sampleHeader)
             (str "Cards;PayChat;B3;Bolt;5;7;feb-2025") st)
  ∧ (∀ records, ImportData.importLine (csvHeaders sampleHeader)
                  (str " Cards ; PayChat;B3 ;Bolt; 5;7 ;feb-2025" ++ [0x0D]) records
                = ImportData.importLine (csvHeaders sampleHeader)
                    (str "Cards;PayChat;B3;Bolt;5;7;feb-2025") records)
  ∧ (∀ records, Client.importLine (csvHeaders sampleHeader)
                  (str " Cards ; PayChat;B3 ;Bolt; 5;7 ;feb-2025" ++ [0x0D]) records
                = Client.importLine (csvHeaders sampleHeader)
                    (str "Cards;PayChat;B3;Bolt;5;7;feb-2025") records).
Proof.
  apply (line_read_through_trimmed_fields (csvHeaders sampleHeader)).
  vm_compute. reflexivity.
Defined.

(** X2. A line made of semicolons and white space only is skipped on all
    three paths: it adds no record, counts as no duplicate and raises no
    error, whatever the header is. *)
Theorem blank_line_skipped (headers : list jsstring) (line : jsstring) :
  Forall (λ c, c = 0x3B ∨ isWhiteSpace c = true) line →
  (∀ st, EdgeFn.importLine headers line st = Return st)
  ∧ (∀ records, ImportData.importLine headers line records = Return records)
  ∧ (∀ records, Client.importLine headers line records = Return records).
Proof.
  intros Hline.
  assert (allEmpty (split 0x3B line) = true) as Hempty.
  { apply split_pieces in Hline. unfold allEmpty. apply forallb_forall.
    intros v Hv. apply list_elem_of_In in Hv.
    rewrite Forall_forall in Hline. rewrite (trim_blank v) by auto.
    apply orb_true_r. }
  unfold EdgeFn.importLine, ImportData.importLine, Client.importLine.
  by rewrite Hempty.
Qed.

Lemma blank_line_skipped_witness :
  (∀ st, EdgeFn.importLine (csvHeaders sampleHeader) (str ";; ;;;; " ++ [0x0D]) st
         = Return st)
  ∧ (∀ records, ImportData.importLine (csvHeaders sampleHeader)
                  (str ";; ;;;; " ++ [0x0D]) records = Return records)
  ∧ (∀ records, Client.importLine (csvHeaders sampleHeader)
                  (str ";; ;;;; " ++ [0x0D]) records = Return records).
Proof.
  apply (blank_line_skipped (csvHeaders sampleHeader) (str ";; ;;;; " ++ [0x0D])).
  repeat (apply List.Forall_cons; [first [left; reflexivity|right; reflexivity]|]).
  apply List.Forall_nil.
Defined.

(** X3. The import reads the text after [trim()]: a byte-order mark, blank
    lines and spaces before the header or after the last row change
    nothing, on all three paths. *)
Theorem surrounding_space_ignored (csv csv' : jsstring) :
  trim csv = trim csv' →
  EdgeFn.parseRecords csv = EdgeFn.parseRecords csv'
  ∧ ImportData.parseRecords csv = ImportData.parseRecords csv'
  ∧ Client.parseRecords csv = Client.parseRecords csv'.
Proof.
  intros H. unfold EdgeFn.parseRecords, ImportData.parseRecords, Client.parseRecords.
  by rewrite !trim_removeBOM, H.
Qed.

Lemma surrounding_space_ignored_witness :
  EdgeFn.parseRecords ([0xFEFF] ++ mixedCsv ++ [0x0D; 0x0A; 0x0A])
    = EdgeFn.parseRecords mixedCsv
  ∧ ImportData.parseRecords ([0xFEFF] ++ mixedCsv ++ [0x0D; 0x0A; 0x0A])
    = ImportData.parseRecords mixedCsv
  ∧ Client.parseRecords ([0xFEFF] ++ mixedCsv ++ [0x0D; 0x0A; 0x0A])
    = Client.parseRecords mixedCsv.
Proof.
  apply (surrounding_space_ignored ([0xFEFF] ++ mixedCsv ++ [0x0D; 0x0A; 0x0A]) mixedCsv).
  vm_compute. reflexivity.
Defined.

(** ** Short lines *)

Lemma fieldNamed_absent (name : jsstring) (headers : list jsstring) (k : nat)
    (values : list jsstring) :
  (∀ j h', headers !! j = Some h' → trim h' ≠ name) →
  fieldNamed name headers k values = None.
Proof.
  revert k. induction headers as [|h headers IH]; intros k Hno; [done|].
  simpl. rewrite IH by (intros j h' Hj; by apply (Hno (S j))).
  rewrite decide_False; [done|]. by apply (Hno 0%nat).
Qed.

Lemma fieldNamed_last (name : jsstring) (headers : list jsstring) (i : nat)
    (h : jsstring) (k : nat) (values : list jsstring) :
  headers !! i = Some h →
  trim h = name →
  (∀ j h', (i < j)%nat → headers !! j = Some h' → trim h' ≠ name) →
  fieldNamed name headers k values = Some (fieldAt values (k + i)).
Proof.
  revert i k. induction headers as [|h0 headers IH]; intros i k Hi Hh Hlast; [done|].
  destruct i as [|i]; simpl in *.
  - injection Hi as ->. rewrite Nat.add_0_r.
    rewrite fieldNamed_absent.
    + by rewrite decide_True.
    + intros j h' Hj. apply (Hlast (S j)); [lia|done].
  - rewrite (IH i (S k) Hi Hh).
    + by rewrite Nat.add_succ_r.
    + intros j h' Hj. apply (Hlast (S j)). lia.
Qed.

(** X4. A line that stops before its [pillar] or [brand_id] column (fewer
    fields than the position of the last header of that name) reads that
    column as empty and is skipped without an error, on all three paths. *)
Theorem truncated_line_skipped (headers : list jsstring) (line : jsstring)
    (name h : jsstring) (i : nat) :
  name = str "pillar" ∨ name = str "brand_id" →
  headers !! i = Some h →
  trim h = name →
  (∀ j h', (i < j)%nat → headers !! j = Some h' → trim h' ≠ name) →
  (length (split 0x3B line) ≤ i)%nat →
  (∀ st, EdgeFn.importLine headers line st = Return st)
  ∧ (∀ records, ImportData.importLine headers line records = Return records)
  ∧ (∀ records, Client.importLine headers line records = Return records).
Proof.
  intros Hname Hi Hh Hlast Hshort.
  pose proof (fieldNamed_last name headers i h 0 (split 0x3B line) Hi Hh Hlast) as Hf.
  simpl in Hf. unfold fieldAt in Hf. rewrite lookup_ge_None_2 in Hf by done.
  unfold EdgeFn.importLine, ImportData.importLine, Client.importLine.
  rewrite !buildRow_lookup by str_ne.
  destruct (allEmpty _); [done|].
  destruct Hname as [-> | ->]; rewrite Hf; simpl; [done|].
  by rewrite orb_true_r.
Qed.

Lemma truncated_line_skipped_witness :
  (∀ st, EdgeFn.importLine (csvHeaders sampleHeader) (str "Cards;PayChat") st
         = Return st)
  ∧ (∀ records, ImportData.importLine (csvHeaders sampleHeader) (str "Cards;PayChat")
                  records = Return records)
  ∧ (∀ records, Client.importLine (csvHeaders sampleHeader) (str "Cards;PayChat")
                  records = Return records).
Proof.
  apply (truncated_line_skipped (csvHeaders sampleHeader) (str "Cards;PayChat")
           (str "brand_id") (str "brand_id") 2).
  - by right.
  - reflexivity.
  - reflexivity.
  - intros j h' Hj Hh. do 3 (destruct j as [|j]; [lia|]).
    repeat (destruct j as [|j]; [injection Hh as <-; vm_compute; discriminate|]).
    discriminate Hh.
  - vm_compute. lia.
Defined.

(** ** What reaches the store *)

Lemma date_suffix_server (monthStr : jsval) (date : jsstring) :
  EdgeFn.parseMonthToDate monthStr = Return date →
  ∃ yearAndMonth, date = yearAndMonth ++ str "-01".
Proof.
  unfold EdgeFn.parseMonthToDate. destruct monthStr as [s|]; [|done].
  destruct (split 45 s !! 0%nat); [|done].
  destruct (split 45 s !! 1%nat) as [year|]; [|done].
  intros [= <-].
  match goal with |- ∃ _, ?a ++ ?c :: ?b ++ ?d = _ => exists (a ++ c :: b) end.
  by rewrite <- app_assoc.
Qed.

Lemma date_suffix_client (monthStr : jsval) (date : jsstring) :
  Client.parseMonthToDate monthStr = Return date →
  ∃ yearAndMonth, date = yearAndMonth ++ str "-01".
Proof.
  unfold Client.parseMonthToDate. destruct monthStr as [s|]; [|done].
  intros [= <-].
  match goal with |- ∃ _, ?a ++ ?c :: ?b ++ ?d = _ => exists (a ++ c :: b) end.
  by rewrite <- app_assoc.
Qed.

Lemma importLine_wellFormed_server (headers : list jsstring) (line : jsstring)
    (st st' : EdgeFn.RowLoop) :
  EdgeFn.importLine headers line st = Return st' →
  Forall WellFormed (EdgeFn.records st) → Forall WellFormed (EdgeFn.records st').
Proof.
  unfold EdgeFn.importLine. destruct (allEmpty _); [by intros [= <-]|].
  destruct (truthy (_ !! str "pillar")) eqn:Hp; [|by intros [= <-]].
  destruct (truthy (_ !! str "brand_id")) eqn:Hb; [|by intros [= <-]]. simpl.
  destruct (EdgeFn.parseMonthToDate _) as [date|] eqn:Hdate; [|done]. simpl.
  destruct (decide _); [by intros [= <-]|].
  destruct (_ !! str "tpv"); [|done]. intros [= <-] Hwf. simpl.
  apply Forall_app. split; [done|]. apply Forall_singleton.
  split; simpl; [done|done|apply orZero_not_nan..|by eapply date_suffix_server].
Qed.

Lemma importLine_wellFormed_sibling (headers : list jsstring) (line : jsstring)
    (records records' : list MerchantRecord) :
  ImportData.importLine headers line records = Return records' →
  Forall WellFormed records → Forall WellFormed records'.
Proof.
  unfold ImportData.importLine. destruct (allEmpty _); [by intros [= <-]|].
  destruct (truthy (_ !! str "pillar")) eqn:Hp; [|by intros [= <-]].
  destruct (truthy (_ !! str "brand_id")) eqn:Hb; [|by intros [= <-]]. simpl.
  destruct (_ !! str "tpv"); [|done].
  destruct (ImportData.parseMonthToDate _) as [date|] eqn:Hdate; [|done]. simpl.
  intros [= <-] Hwf.
  apply Forall_app. split; [done|]. apply Forall_singleton.
  split; simpl; [done|done|apply orZero_not_nan..|by eapply date_suffix_server].
Qed.

Lemma importLine_wellFormed_client (headers : list jsstring) (line : jsstring)
    (records records' : list MerchantRecord) :
  Client.importLine headers line records = Return records' →
  Forall WellFormed records → Forall WellFormed records'.
Proof.
  unfold Client.importLine. destruct (allEmpty _); [by intros [= <-]|].
  destruct (truthy (_ !! str "pillar")) eqn:Hp; [|by intros [= <-]].
  destruct (truthy (_ !! str "brand_id")) eqn:Hb; [|by intros [= <-]]. simpl.
  destruct (Client.parseMonthToDate _) as [date|] eqn:Hdate; [|done]. simpl.
  intros [= <-] Hwf.
  apply Forall_app. split; [done|]. apply Forall_singleton.
  split; simpl; [done|done|apply orZero_not_nan..|by eapply date_suffix_client].
Qed.

Lemma records_wellFormed_server (csv : jsstring) (records : list MerchantRecord) :
  serverRecords csv = Return records → Forall WellFormed records.
Proof.
  intros (st & Hst & <-)%serverRecords_Return. rewrite parseRecords_unfold in Hst.
  assert (Forall WellFormed (EdgeFn.records initialLoop)) as Hinit by constructor.
  revert Hst Hinit. generalize initialLoop (csvDataLines csv).
  intros st0 ls. revert st0. induction ls as [|line ls IH]; intros st0; simpl.
  { by intros [= <-]. }
  destruct (EdgeFn.importLine _ line st0) as [st1|] eqn:Hline; simpl; [|done].
  intros Hrest Hwf. apply (IH _ Hrest). by eapply importLine_wellFormed_server.
Qed.

Lemma records_wellFormed_sibling (csv : jsstring) (records : list MerchantRecord) :
  ImportData.parseRecords csv = Return records → Forall WellFormed records.
Proof.
  unfold ImportData.parseRecords. destruct (_ !! 0%nat) as [headerLine|]; [|done].
  assert (Forall WellFormed (@nil MerchantRecord)) as Hinit by constructor.
  revert Hinit. generalize (@nil MerchantRecord) (drop 1 (split 10 (trim (removeBOM csv)))).
  intros rs ls. revert rs. induction ls as [|line ls IH]; intros rs Hwf; simpl.
  { by intros [= <-]. }
  destruct (ImportData.importLine _ line rs) as [rs1|] eqn:Hline; simpl; [|done].
  apply IH. by eapply importLine_wellFormed_sibling.
Qed.

Lemma records_wellFormed_client (csv : jsstring) (records : list MerchantRecord) :
  Client.parseRecords csv = Return records → Forall WellFormed records.
Proof.
  unfold Client.parseRecords. destruct (_ !! 0%nat) as [headerLine|]; [|done].
  assert (Forall WellFormed (@nil MerchantRecord)) as Hinit by constructor.
  revert Hinit. generalize (@nil MerchantRecord) (drop 1 (split 10 (trim csv))).
  intros rs ls. revert rs. induction ls as [|line ls IH]; intros rs Hwf; simpl.
  { by intros [= <-]. }
  destruct (Client.importLine _ line rs) as [rs1|] eqn:Hline; simpl; [|done].
  apply IH. by eapply importLine_wellFormed_client.
Qed.

(** X5. Every record a run builds, on any of the three paths, has a
    non-empty [pillar] and a non-empty [brand_id], amounts that are numbers
    (never [NaN]) and a date text that ends in [-01]. *)
Theorem records_well_formed (csv : jsstring) (records : list MerchantRecord) :
  serverRecords csv = Return records
  ∨ ImportData.parseRecords csv = Return records
  ∨ Client.parseRecords csv = Return records →
  Forall WellFormed records.
Proof.
  intros [H|[H|H]].
  - by eapply records_wellFormed_server.
  - by eapply records_wellFormed_sibling.
  - by eapply records_wellFormed_client.
Qed.

Lemma records_well_formed_witness : Forall WellFormed [acmeRecord; boltRecord].
Proof.
  apply (records_well_formed mixedCsv). left. vm_compute. reflexivity.
Defined.

(** ** The batch loop in general *)

Arguments EdgeFn.batchSize : simpl never.

Lemma freshRows_data (uuids : nat → jsstring) (n : nat) (b : list MerchantRecord) :
  data <$> freshRows uuids n b = b.
Proof. revert n. induction b as [|r b IH]; intros n; simpl; [done|]. by rewrite IH. Qed.

Lemma slice_batch {A} (i : nat) (l : list A) :
  slice i (i + EdgeFn.batchSize) l = take EdgeFn.batchSize (drop i l).
Proof. unfold slice. f_equal. lia. Qed.

(** The requests of the loop are inserts of consecutive pieces of what is
    left of [recs], whether or not the store fails one of them. *)
Lemma insertLoop_calls (fuel : nat) (recs : list MerchantRecord) (i t : nat) (w : World) :
  ∃ batches,
    calls (EdgeFn.insertLoop fuel recs i t w).2 = calls w ++ (InsertRows <$> batches)
    ∧ faults (EdgeFn.insertLoop fuel recs i t w).2 = faults w.
Proof.
  revert i t w. induction fuel as [|fuel IH]; intros i t w.
  { exists []. simpl. by rewrite app_nil_r. }
  destruct (decide (i < length recs)%nat) as [Hi|Hi].
  2:{ rewrite insertLoop_done by lia. exists []. simpl. by rewrite app_nil_r. }
  rewrite insertLoop_step by done. unfold bind, insertRows, request.
  set (batch := slice i (i + EdgeFn.batchSize) recs).
  destruct (faults w (length (calls w))) as [e|]; simpl.
  { by exists [batch]. }
  match goal with |- context [EdgeFn.insertLoop fuel recs ?i' ?t' ?w1] =>
    destruct (IH i' t' w1) as (batches & Hc & Hf) end.
  exists (batch :: batches). rewrite Hc, Hf. simpl. by rewrite <- app_assoc.
Qed.

(** On a store that answers every request the loop inserts everything that
    is left of [recs], in consecutive batches of [batchSize] records, the
    last one possibly shorter. *)
Lemma insertLoop_reliable (fuel : nat) (recs : list MerchantRecord) (i t : nat) (w : World) :
  (∀ k, faults w k = None) →
  (length recs ≤ i + fuel * EdgeFn.batchSize)%nat →
  ∃ batches,
    EdgeFn.insertLoop fuel recs i t w =
      (Return (t + (length recs - i))%nat,
       {| rows := rows w ++ freshRows (uuids w) (next_uuid w) (drop i recs);
          calls := calls w ++ (InsertRows <$> batches);
          faults := faults w; uuids := uuids w;
          next_uuid := (next_uuid w + (length recs - i))%nat |})
    ∧ concat batches = drop i recs
    ∧ Forall (λ b, (1 ≤ length b ≤ EdgeFn.batchSize)%nat) batches
    ∧ (∀ k b, batches !! k = Some b → (S k < length batches)%nat →
              length b = EdgeFn.batchSize)
    ∧ (batches = [] ↔ (length recs ≤ i)%nat).
Proof.
  pose proof batchSize_pos as Hb.
  revert i t w. induction fuel as [|fuel IH]; intros i t w Hno Hfuel.
  { exists []. rewrite insertLoop_done by lia. simpl in Hfuel.
    rewrite drop_ge by lia. replace (length recs - i)%nat with 0%nat by lia.
    rewrite !Nat.add_0_r, !app_nil_r. destruct w. split_and!; try done.
    split; [lia|done]. }
  destruct (decide (i < length recs)%nat) as [Hi|Hi].
  2:{ exists []. rewrite insertLoop_done by lia.
      rewrite drop_ge by lia. replace (length recs - i)%nat with 0%nat by lia.
      rewrite !Nat.add_0_r, !app_nil_r. destruct w. split_and!; try done.
      split; [lia|done]. }
  rewrite insertLoop_step by done. rewrite slice_batch.
  set (batch := take EdgeFn.batchSize (drop i recs)).
  assert (length batch = EdgeFn.batchSize `min` (length recs - i))%nat as Hlen.
  { unfold batch. by rewrite length_take, length_drop. }
  unfold bind, insertRows. rewrite request_ok by apply Hno.
  set (w1 := logCall (InsertRows batch) (perform (InsertRows batch) w)).
  destruct (IH (i + EdgeFn.batchSize)%nat (t + length batch)%nat w1)
    as (batches & Hrun & Hcat & Hsizes & Hfull & Hnil); [apply Hno|lia|].
  exists (batch :: batches). rewrite Hrun. simpl.
  assert (batch ++ drop (i + EdgeFn.batchSize) recs = drop i recs) as Hsplit.
  { unfold batch. rewrite <- drop_drop. apply take_drop. }
  split_and!.
  - f_equal; [f_equal; lia|]. f_equal; [|by rewrite <- app_assoc|lia].
    by rewrite <- app_assoc, <- freshRows_app, Hsplit.
  - by rewrite Hcat.
  - constructor; [lia|done].
  - intros [|k] b Hk Hlast; simpl in Hk, Hlast.
    + injection Hk as <-. destruct batches as [|b0 batches]; [simpl in Hlast; lia|].
      assert (¬ (length recs ≤ i + EdgeFn.batchSize)%nat) by (intros ?%Hnil; done).
      lia.
    + apply (Hfull k b Hk). lia.
  - split; [done|lia].
Qed.

(** The batches before the first failing insert stay in the table, the
    failing one and everything after it do not. *)
Lemma insertLoop_failure (j : nat) :
  ∀ (fuel : nat) (recs : list MerchantRecord) (i t : nat) (w : World) (e : StoreErr),
    (∀ k, (k < j)%nat → faults w (length (calls w) + k) = None) →
    faults w (length (calls w) + j) = Some e →
    (i + j * EdgeFn.batchSize < length recs)%nat →
    (length recs ≤ i + fuel * EdgeFn.batchSize)%nat →
    ∃ w',
      EdgeFn.insertLoop fuel recs i t w = (Throw (StoreFailure e), w')
      ∧ rows w' = rows w ++ freshRows (uuids w) (next_uuid w)
                             (take (j * EdgeFn.batchSize) (drop i recs))
      ∧ length (calls w') = (length (calls w) + S j)%nat.
Proof.
  pose proof batchSize_pos as Hb.
  induction j as [|j IH]; intros fuel recs i t w e Hok Hfail Hj Hfuel.
  - destruct fuel as [|fuel]; [lia|].
    rewrite insertLoop_step by lia. unfold bind, insertRows.
    rewrite Nat.add_0_r in Hfail. rewrite request_fail with (e := e) by done.
    eexists. split; [done|]. simpl. rewrite app_nil_r, length_app. simpl. split; [done|lia].
  - destruct fuel as [|fuel]; [lia|].
    rewrite insertLoop_step by lia. rewrite slice_batch.
    set (batch := take EdgeFn.batchSize (drop i recs)).
    assert (length batch = EdgeFn.batchSize) as Hlen.
    { unfold batch. rewrite length_take, length_drop. lia. }
    unfold bind, insertRows.
    rewrite request_ok by (rewrite <- (Nat.add_0_r (length (calls w))); apply Hok; lia).
    set (w1 := logCall (InsertRows batch) (perform (InsertRows batch) w)).
    assert (length (calls w1) = S (length (calls w))) as Hcalls.
    { simpl. rewrite length_app. simpl. lia. }
    destruct (IH fuel recs (i + EdgeFn.batchSize)%nat (t + length batch)%nat w1 e)
      as (w' & Hrun & Hrows & Hc).
    + intros k Hk. rewrite Hcalls.
      change (faults w1) with (faults w).
      replace (S (length (calls w)) + k)%nat with (length (calls w) + S k)%nat by lia.
      apply Hok. lia.
    + rewrite Hcalls. change (faults w1) with (faults w).
      by replace (S (length (calls w)) + j)%nat with (length (calls w) + S j)%nat by lia.
    + lia.
    + lia.
    + exists w'. split; [done|]. rewrite Hrows, Hc, Hcalls. simpl. split; [|lia].
      rewrite <- app_assoc, <- freshRows_app. do 2 f_equal. unfold batch.
      rewrite <- drop_drop, take_take_drop. done.
Qed.

(** ** Whole runs of the deduplicating import *)

Lemma purge_ok (clearExisting : bool) (w : World) :
  (clearExisting = true → faults w (length (calls w)) = None) →
  purge clearExisting w =
    (Return tt,
     {| rows := purged clearExisting (rows w);
        calls := calls w ++ (if clearExisting then [DeleteNeqId EdgeFn.nilUUID] else []);
        faults := faults w; uuids := uuids w; next_uuid := next_uuid w |}).
Proof.
  intros Hok. destruct clearExisting; simpl.
  - unfold bind, deleteNeqId. by rewrite request_ok by auto.
  - rewrite app_nil_r. by destruct w.
Qed.

(** A run on a store that answers every request. *)
Lemma import_reliable (csv : jsstring) (clearExisting : bool) (w : World)
    (st : EdgeFn.RowLoop) :
  (∀ k, faults w k = None) →
  EdgeFn.parseRecords csv = Return st →
  ∃ batches,
    EdgeFn.importCheckoutData csv clearExisting w =
      (Return {| EdgeFn.imported := length (EdgeFn.records st);
                 EdgeFn.duplicatesSkipped := EdgeFn.duplicates st;
                 EdgeFn.cleared := clearExisting; EdgeFn.errors := 0;
                 EdgeFn.message := str "Data imported successfully" |},
       {| rows := purged clearExisting (rows w)
                  ++ freshRows (uuids w) (next_uuid w) (EdgeFn.records st);
          calls := (calls w ++ (if clearExisting then [DeleteNeqId EdgeFn.nilUUID] else []))
                   ++ (InsertRows <$> batches);
          faults := faults w; uuids := uuids w;
          next_uuid := (next_uuid w + length (EdgeFn.records st))%nat |})
    ∧ concat batches = EdgeFn.records st
    ∧ Forall (λ b, (1 ≤ length b ≤ EdgeFn.batchSize)%nat) batches
    ∧ (∀ k b, batches !! k = Some b → (S k < length batches)%nat →
              length b = EdgeFn.batchSize).
Proof.
  intros Hno Hst. rewrite importCheckoutData_unfold.
  cbv beta iota delta [bind lift ret]. rewrite purge_ok by auto. rewrite Hst.
  unfold EdgeFn.insertBatches.
  match goal with |- context [EdgeFn.insertLoop ?f ?r 0 0 ?w1] =>
    destruct (insertLoop_reliable f r 0 0 w1) as (batches & Hrun & Hcat & Hsz & Hfull & _);
      [apply Hno|pose proof batchSize_pos; nia|] end.
  exists batches. rewrite Hrun. simpl. rewrite Nat.sub_0_r. done.
Qed.

(** X6. On a store that answers every request, the records of a run are
    sent as consecutive batches: the batches put end to end are the
    accepted records in order, none is empty or longer than 500, and all but
    the last hold exactly 500. The purge, when asked for, comes first. *)
Theorem batches_partition_records (csv : jsstring) (clearExisting : bool) (w : World)
    (records : list MerchantRecord) :
  (∀ k, faults w k = None) →
  serverRecords csv = Return records →
  ∃ batches,
    calls (EdgeFn.importCheckoutData csv clearExisting w).2 =
      (calls w ++ (if clearExisting then [DeleteNeqId EdgeFn.nilUUID] else []))
      ++ (InsertRows <$> batches)
    ∧ concat batches = records
    ∧ Forall (λ b, (1 ≤ length b ≤ 500)%nat) batches
    ∧ (∀ k b, batches !! k = Some b → (S k < length batches)%nat → length b = 500%nat).
Proof.
  intros Hno (st & Hst & <-)%serverRecords_Return.
  destruct (import_reliable csv clearExisting w st Hno Hst)
    as (batches & -> & Hcat & Hsz & Hfull).
  by exists batches.
Qed.

Lemma batches_partition_records_witness :
  ∃ batches,
    calls (EdgeFn.importCheckoutData mixedCsv true (store sampleTable noFaults)).2 =
      (calls (store sampleTable noFaults) ++ [DeleteNeqId EdgeFn.nilUUID])
      ++ (InsertRows <$> batches)
    ∧ concat batches = [acmeRecord; boltRecord]
    ∧ Forall (λ b, (1 ≤ length b ≤ 500)%nat) batches
    ∧ (∀ k b, batches !! k = Some b → (S k < length batches)%nat → length b = 500%nat).
Proof.
  apply (batches_partition_records mixedCsv true (store sampleTable noFaults)).
  - intros k. reflexivity.
  - vm_compute. reflexivity.
Defined.

(** X7. In append mode ([clearExisting] false) on a store that answers
    every request, the table afterwards is the old table, untouched,
    followed by one new row per accepted record, in input order: rows
    already stored are neither removed nor compared with the new ones. *)
Theorem append_keeps_existing_rows (csv : jsstring) (w : World)
    (records : list MerchantRecord) :
  (∀ k, faults w k = None) →
  serverRecords csv = Return records →
  rows (EdgeFn.importCheckoutData csv false w).2 =
    rows w ++ freshRows (uuids w) (next_uuid w) records
  ∧ data <$> rows (EdgeFn.importCheckoutData csv false w).2 = (data <$> rows w) ++ records.
Proof.
  intros Hno (st & Hst & <-)%serverRecords_Return.
  destruct (import_reliable csv false w st Hno Hst) as (batches & -> & _).
  simpl. by rewrite fmap_app, freshRows_data.
Qed.

Lemma append_keeps_existing_rows_witness :
  rows (EdgeFn.importCheckoutData mixedCsv false (store sampleTable noFaults)).2 =
    rows (store sampleTable noFaults)
    ++ freshRows (uuids (store sampleTable noFaults))
         (next_uuid (store sampleTable noFaults)) [acmeRecord; boltRecord]
  ∧ data <$> rows (EdgeFn.importCheckoutData mixedCsv false (store sampleTable noFaults)).2
    = (data <$> rows (store sampleTable noFaults)) ++ [acmeRecord; boltRecord].
Proof.
  apply (append_keeps_existing_rows mixedCsv (store sampleTable noFaults)).
  - intros k. reflexivity.
  - vm_compute. reflexivity.
Defined.

(** X8. The import is not atomic, and what it leaves is a prefix: when the
    insert of batch number [j] (counting from 0) is the first request of
    the run to fail, with or without a purge before the inserts, the run
    throws that error, sends nothing after it, and the table has gained
    exactly the first [500 * j] accepted records. *)
Theorem failed_batch_leaves_prefix (csv : jsstring) (clearExisting : bool) (w : World)
    (records : list MerchantRecord) (j : nat) (e : StoreErr) :
  serverRecords csv = Return records →
  (∀ k, (k < (if clearExisting then 1 else 0) + j)%nat →
        faults w (length (calls w) + k) = None) →
  faults w (length (calls w) + ((if clearExisting then 1 else 0) + j)) = Some e →
  (j * 500 < length records)%nat →
  ∃ w',
    EdgeFn.importCheckoutData csv clearExisting w = (Throw (StoreFailure e), w')
    ∧ rows w' = purged clearExisting (rows w)
                ++ freshRows (uuids w) (next_uuid w) (take (j * 500) records)
    ∧ length (calls w') = (length (calls w) + ((if clearExisting then 1 else 0) + S j))%nat.
Proof.
  intros (st & Hst & <-)%serverRecords_Return Hok Hfail Hj.
  rewrite importCheckoutData_unfold.
  cbv beta iota delta [bind lift ret]. rewrite purge_ok. rewrite Hst.
  2:{ intros ->. rewrite <- (Nat.add_0_r (length (calls w))). apply Hok. lia. }
  unfold EdgeFn.insertBatches.
  match goal with |- context [EdgeFn.insertLoop ?f ?r 0 0 ?w1] =>
    destruct (insertLoop_failure j f r 0 0 w1 e) as (w' & Hrun & Hrows & Hcalls) end.
  - intros k Hk. cbn [faults calls]. rewrite length_app, <- Nat.add_assoc.
    apply Hok. destruct clearExisting; simpl; lia.
  - cbn [faults calls]. rewrite length_app, <- Nat.add_assoc.
    rewrite <- Hfail. by destruct clearExisting.
  - done.
  - pose proof batchSize_pos. nia.
  - exists w'. rewrite Hrun. split; [done|].
    rewrite Hrows, Hcalls. cbn [rows calls uuids next_uuid drop].
    rewrite length_app. split; [done|]. destruct clearExisting; simpl; lia.
Qed.

Lemma failed_batch_leaves_prefix_witness :
  ∃ records w',
    serverRecords (uniqueCsv 1200) = Return records
    ∧ length (take (1 * 500) records) = 500%nat
    ∧ EdgeFn.importCheckoutData (uniqueCsv 1200) true
        (store sampleTable (failAt 2 sampleError))
      = (Throw (StoreFailure sampleError), w')
    ∧ rows w' = purged true (rows (store sampleTable (failAt 2 sampleError)))
                ++ freshRows (uuids (store sampleTable (failAt 2 sampleError)))
                     (next_uuid (store sampleTable (failAt 2 sampleError)))
                     (take (1 * 500) records)
    ∧ length (calls w')
      = (length (calls (store sampleTable (failAt 2 sampleError))) + (1 + 2))%nat.
Proof.
  assert (∃ records, serverRecords (uniqueCsv 1200) = Return records
                     ∧ length records = 1200%nat) as (records & Hrecords & Hlen).
  { vm_compute. eexists. split; reflexivity. }
  destruct (failed_batch_leaves_prefix (uniqueCsv 1200) true
              (store sampleTable (failAt 2 sampleError)) records 1 sampleError)
    as (w' & Hrun).
  - exact Hrecords.
  - intros k Hk. simpl in Hk. unfold store, failAt. cbn [faults calls length].
    rewrite decide_False by lia. reflexivity.
  - reflexivity.
  - rewrite Hlen. lia.
  - exists records, w'. split; [exact Hrecords|]. split; [|exact Hrun].
    rewrite length_take, Hlen. reflexivity.
Defined.

Lemma freshRows_filter_nil (uuids : nat → jsstring) (n : nat) (b : list MerchantRecord) :
  (∀ k, uuids k ≠ EdgeFn.nilUUID) →
  filter (λ r, id r = EdgeFn.nilUUID) (freshRows uuids n b) = [].
Proof.
  intros Hids. revert n. induction b as [|r b IH]; intros n; simpl; [done|].
  rewrite filter_cons. simpl. rewrite decide_False by apply Hids. apply IH.
Qed.

(** X9. Reloading is idempotent: importing the same text twice with
    [clearExisting] true, on a store that answers every request and never
    hands out the nil UUID, returns the same result both times, and the
    table after the second run is the table after the first up to the
    identifiers: the old rows stored under the nil UUID, then one row per
    accepted record. *)
Theorem reload_idempotent (csv : jsstring) (w : World) (records : list MerchantRecord) :
  (∀ k, faults w k = None) →
  (∀ k, uuids w k ≠ EdgeFn.nilUUID) →
  serverRecords csv = Return records →
  let first := EdgeFn.importCheckoutData csv true w in
  let second := EdgeFn.importCheckoutData csv true first.2 in
  second.1 = first.1
  ∧ data <$> rows first.2
    = (data <$> filter (λ r, id r = EdgeFn.nilUUID) (rows w)) ++ records
  ∧ data <$> rows second.2 = data <$> rows first.2.
Proof.
  intros Hno Hids (st & Hst & <-)%serverRecords_Return first second.
  destruct (import_reliable csv true w st Hno Hst) as (b1 & H1 & _).
  subst second. fold first. unfold first at 1 2 3. rewrite H1. unfold first. rewrite H1.
  simpl.
  match goal with |- context [EdgeFn.importCheckoutData (JString csv) (JBool true) ?w1] =>
    destruct (import_reliable csv true w1 st Hno Hst) as (b2 & H2 & _); rewrite H2 end.
  simpl. rewrite !fmap_app, !freshRows_data.
  rewrite filter_app, freshRows_filter_nil by done.
  rewrite app_nil_r, list_filter_filter.
  split_and!; [done..|]. f_equal. f_equal. apply list_filter_iff. tauto.
Qed.

Lemma reload_idempotent_witness :
  let first := EdgeFn.importCheckoutData mixedCsv true (reliableStore sampleTable) in
  let second := EdgeFn.importCheckoutData mixedCsv true first.2 in
  second.1 = first.1
  ∧ data <$> rows first.2
    = (data <$> filter (λ r, id r = EdgeFn.nilUUID) (rows (reliableStore sampleTable)))
      ++ [acmeRecord; boltRecord]
  ∧ data <$> rows second.2 = data <$> rows first.2.
Proof.
  apply (reload_idempotent mixedCsv (reliableStore sampleTable) [acmeRecord; boltRecord]).
  - intros k. reflexivity.
  - intros k H. discriminate H.
  - vm_compute. reflexivity.
Defined.

(** X10. Deduplication is local to one run: importing the same text twice
    in append mode stores every accepted record twice. *)
Theorem append_twice_duplicates (csv : jsstring) (w : World)
    (records : list MerchantRecord) :
  (∀ k, faults w k = None) →
  serverRecords csv = Return records →
  let first := EdgeFn.importCheckoutData csv false w in
  let second := EdgeFn.importCheckoutData csv false first.2 in
  second.1 = first.1
  ∧ data <$> rows second.2 = (data <$> rows w) ++ records ++ records.
Proof.
  intros Hno (st & Hst & <-)%serverRecords_Return first second.
  destruct (import_reliable csv false w st Hno Hst) as (b1 & H1 & _).
  subst second. unfold first. rewrite H1. simpl.
  match goal with |- context [EdgeFn.importCheckoutData (JString csv) (JBool false) ?w1] =>
    destruct (import_reliable csv false w1 st Hno Hst) as (b2 & H2 & _); rewrite H2 end.
  simpl. by rewrite !fmap_app, !freshRows_data, <- app_assoc.
Qed.

Lemma append_twice_duplicates_witness :
  let first := EdgeFn.importCheckoutData mixedCsv false (reliableStore sampleTable) in
  let second := EdgeFn.importCheckoutData mixedCsv false first.2 in
  second.1 = first.1
  ∧ data <$> rows second.2
    = (data <$> rows (reliableStore sampleTable))
      ++ [acmeRecord; boltRecord] ++ [acmeRecord; boltRecord].
Proof.
  apply (append_twice_duplicates mixedCsv (reliableStore sampleTable)
           [acmeRecord; boltRecord]).
  - intros k. reflexivity.
  - vm_compute. reflexivity.
Defined.

(** ** The handler *)

(** X11. Whatever the request (its [csvContent] and [clearExisting] being
    JSON values of any kind) and however the store answers, the handler
    sends a purge exactly when the body carries a truthy [csvContent] and a
    truthy [clearExisting] (the string [false] or the number 1 count as
    much as [true]), sends it before anything else, and sends nothing but
    inserts after it; inserts are only sent for a [csvContent] that is a
    non-empty string, and an OPTIONS request sends nothing at all. *)
Theorem handler_requests (req : EdgeFn.Request) (w : World) :
  ∃ batches,
    calls (EdgeFn.serve req w).2 =
      calls w
      ++ (if decide (EdgeFn.method req = str "OPTIONS") then []
          else (if wantsPurge req then [DeleteNeqId EdgeFn.nilUUID] else [])
               ++ (InsertRows <$> batches))
    ∧ ((∀ text, csvText req = Some text → text = []) → batches = []).
Proof.
  unfold EdgeFn.serve, wantsPurge, csvText. destruct (decide _) as [Hm|Hm].
  { exists []. by rewrite app_nil_r. }
  cbv beta iota delta [bind lift ret].
  destruct (EdgeFn.json req) as [payload|e]; simpl.
  2:{ exists []. by rewrite app_nil_r. }
  destruct (EdgeFn.csvContent payload) as [text|]; simpl.
  2:{ exists []. by rewrite app_nil_r. }
  destruct (toBoolean text) eqn:Htext; simpl.
  2:{ exists []. by rewrite app_nil_r. }
  rewrite importCheckoutData_any. cbv beta iota delta [bind lift ret].
  assert (toBoolean (default (JBool false) (EdgeFn.clearExisting payload))
          = present (EdgeFn.clearExisting payload)) as ->.
  { by destruct (EdgeFn.clearExisting payload). }
  assert (∃ w1, (purge (present (EdgeFn.clearExisting payload)) w).2 = w1
                ∧ calls w1 = calls w
                    ++ (if present (EdgeFn.clearExisting payload)
                        then [DeleteNeqId EdgeFn.nilUUID] else []))
    as (w1 & Hw1 & Hc1).
  { eexists. split; [done|].
    destruct (present _); simpl; [|by rewrite app_nil_r].
    unfold bind, deleteNeqId, request.
    by destruct (faults w (length (calls w))). }
  destruct (purge (present (EdgeFn.clearExisting payload)) w) as [[[]|e] w1'];
    simpl in Hw1; subst w1'; simpl.
  2:{ exists []. rewrite Hc1, app_nil_r. done. }
  destruct (replaceReceiver _ text) as [csv|e] eqn:Hrecv; simpl.
  2:{ exists []. rewrite Hc1, app_nil_r. done. }
  destruct text as [|b|x|s|items|members]; try done. injection Hrecv as ->.
  destruct (EdgeFn.parseRecords csv) as [st|e]; simpl.
  2:{ exists []. rewrite Hc1, app_nil_r. done. }
  unfold EdgeFn.insertBatches.
  destruct (insertLoop_calls (length (EdgeFn.records st)) (EdgeFn.records st) 0 0 w1)
    as (batches & Hc & _).
  destruct (EdgeFn.insertLoop _ _ 0 0 w1) as [[t|e] w2]; simpl in *;
    exists batches; rewrite Hc, Hc1, <- app_assoc; (split; [done|]);
    intros Hempty; specialize (Hempty csv eq_refl); by subst csv.
Qed.

(** ** The direct-call import as a whole *)

(** X12. The direct-call import never purges and never throws; it sends at
    most one request, an insert of all its records at once, so it is all or
    nothing: either every record is stored and [errors] is 0, or the table
    is unchanged, [imported] is 0 and [errors] is 1. *)
Theorem client_all_or_nothing (csv : jsstring) (w : World) :
  let run := Client.importCheckoutData csv w in
  (∃ records,
      Client.parseRecords csv = Return records
      ∧ calls run.2 = calls w ++ [InsertRows records]
      ∧ rows run.2 = rows w ++ freshRows (uuids w) (next_uuid w) records
      ∧ Client.imported run.1 = length records
      ∧ Client.errors run.1 = 0%nat)
  ∨ (rows run.2 = rows w
     ∧ Client.imported run.1 = 0%nat
     ∧ Client.errors run.1 = 1%nat
     ∧ (calls run.2 = calls w
        ∨ ∃ records, Client.parseRecords csv = Return records
                     ∧ calls run.2 = calls w ++ [InsertRows records])).
Proof.
  unfold Client.importCheckoutData. cbv beta iota delta [bind lift ret throw].
  destruct (Client.parseRecords csv) as [records|e]; simpl.
  2:{ right. auto. }
  unfold insertRows, request. destruct (faults w (length (calls w))) as [e|]; simpl.
  - right. split_and!; [done..|]. right. eauto.
  - left. exists records. auto.
Qed.

(** ** Month tokens that cannot be split *)

Lemma parseMonthToDate_no_hyphen (monthStr : jsval) :
  match monthStr with
  | Some s => Forall (λ c, c ≠ 0x2D) s
  | None => True
  end →
  ∃ e, EdgeFn.parseMonthToDate monthStr = Throw e.
Proof.
  destruct monthStr as [s|]; [|by eexists].
  intros Hs. unfold EdgeFn.parseMonthToDate. rewrite split_no_sep by done.
  by eexists.
Qed.

Lemma importLine_bad_month_server (headers : list jsstring) (line : jsstring)
    (st : EdgeFn.RowLoop) :
  eligible headers line = true →
  match fieldNamed (str "month") headers 0 (split 0x3B line) with
  | Some s => Forall (λ c, c ≠ 0x2D) s
  | None => True
  end →
  ∃ e, EdgeFn.importLine headers line st = Throw e.
Proof.
  unfold eligible, EdgeFn.importLine. rewrite !buildRow_lookup by str_ne.
  intros [[Hne%negb_true_iff Hp]%andb_true_iff Hb]%andb_true_iff Hmonth.
  rewrite Hne, Hp, Hb. simpl.
  destruct (parseMonthToDate_no_hyphen _ Hmonth) as [e ->]. by eexists.
Qed.

Lemma importLine_bad_month_sibling (headers : list jsstring) (line : jsstring)
    (records : list MerchantRecord) :
  eligible headers line = true →
  match fieldNamed (str "month") headers 0 (split 0x3B line) with
  | Some s => Forall (λ c, c ≠ 0x2D) s
  | None => True
  end →
  ∃ e, ImportData.importLine headers line records = Throw e.
Proof.
  unfold eligible, ImportData.importLine. rewrite !buildRow_lookup by str_ne.
  intros [[Hne%negb_true_iff Hp]%andb_true_iff Hb]%andb_true_iff Hmonth.
  rewrite Hne, Hp, Hb. simpl.
  destruct (fieldNamed (str "tpv") _ _ _); [|by eexists].
  unfold ImportData.parseMonthToDate.
  destruct (parseMonthToDate_no_hyphen _ Hmonth) as [e ->]. by eexists.
Qed.

Lemma importLines_throw_server (headers dataLines : list jsstring) (line : jsstring) :
  line ∈ dataLines →
  (∀ st, ∃ e, EdgeFn.importLine headers line st = Throw e) →
  ∀ st, ∃ e, EdgeFn.importLines headers dataLines st = Throw e.
Proof.
  intros Hin Hthrow. induction dataLines as [|l ls IH]; intros st.
  { by apply elem_of_nil in Hin. }
  simpl. apply elem_of_cons in Hin as [<-|Hin].
  - destruct (Hthrow st) as [e ->]. by eexists.
  - destruct (EdgeFn.importLine headers l st) as [st1|e]; simpl; [by apply IH|by eexists].
Qed.

Lemma importLines_throw_sibling (headers dataLines : list jsstring) (line : jsstring) :
  line ∈ dataLines →
  (∀ rs, ∃ e, ImportData.importLine headers line rs = Throw e) →
  ∀ rs, ∃ e, ImportData.importLines headers dataLines rs = Throw e.
Proof.
  intros Hin Hthrow. induction dataLines as [|l ls IH]; intros rs.
  { by apply elem_of_nil in Hin. }
  simpl. apply elem_of_cons in Hin as [<-|Hin].
  - destruct (Hthrow rs) as [e ->]. by eexists.
  - destruct (ImportData.importLine headers l rs) as [rs1|e]; simpl;
      [by apply IH|by eexists].
Qed.

Lemma sibling_parseRecords_unfold (csv : jsstring) :
  ImportData.parseRecords csv =
    ImportData.importLines (csvHeaders csv) (csvDataLines csv) [].
Proof.
  unfold ImportData.parseRecords, csvHeaders, csvDataLines, csvLines.
  destruct (split_cons 10 (trim (removeBOM csv))) as (h & t & ->). done.
Qed.

(** X13. One bad month token fails the whole file on the server side: if
    any data line that counts has no [month] column or a month token
    without a hyphen, both edge functions throw for the whole text, however
    many good lines come before it, and send no insert at all. *)
Theorem bad_month_aborts_run (csv line : jsstring) (clearExisting : bool) (w : World) :
  line ∈ csvDataLines csv →
  eligible (csvHeaders csv) line = true →
  match fieldNamed (str "month") (csvHeaders csv) 0 (split 0x3B line) with
  | Some s => Forall (λ c, c ≠ 0x2D) s
  | None => True
  end →
  (∃ e, (EdgeFn.importCheckoutData csv clearExisting w).1 = Throw e)
  ∧ insertSizes (calls (EdgeFn.importCheckoutData csv clearExisting w).2)
    = insertSizes (calls w)
  ∧ (∃ e, ImportData.importCheckoutData csv w = (Throw e, w)).
Proof.
  intros Hin Hel Hmonth.
  destruct (importLines_throw_server (csvHeaders csv) (csvDataLines csv) line Hin
              (λ st, importLine_bad_month_server _ _ st Hel Hmonth) initialLoop)
    as [e He].
  destruct (importLines_throw_sibling (csvHeaders csv) (csvDataLines csv) line Hin
              (λ rs, importLine_bad_month_sibling _ _ rs Hel Hmonth) [])
    as [e' He'].
  rewrite <- parseRecords_unfold in He. rewrite <- sibling_parseRecords_unfold in He'.
  split_and!.
  - rewrite importCheckoutData_unfold. cbv beta iota delta [bind lift ret]. rewrite He.
    destruct (purge clearExisting w) as [[[]|e0] w1]; by eexists.
  - rewrite importCheckoutData_unfold. cbv beta iota delta [bind lift ret]. rewrite He.
    destruct clearExisting; simpl; [|done].
    unfold bind, deleteNeqId, request, insertSizes.
    destruct (faults w (length (calls w))); simpl;
      rewrite omap_app; simpl; by rewrite app_nil_r.
  - exists e'. unfold ImportData.importCheckoutData.
    cbv beta iota delta [bind lift ret replaceReceiver]. by rewrite He'.
Qed.

Lemma bad_month_aborts_run_witness :
  (∃ e, (EdgeFn.importCheckoutData scenarioUnderscore true (store sampleTable noFaults)).1
        = Throw e)
  ∧ insertSizes
      (calls (EdgeFn.importCheckoutData scenarioUnderscore true
                (store sampleTable noFaults)).2)
    = insertSizes (calls (store sampleTable noFaults))
  ∧ (∃ e, ImportData.importCheckoutData scenarioUnderscore (store sampleTable noFaults)
          = (Throw e, store sampleTable noFaults)).
Proof.
  apply (bad_month_aborts_run scenarioUnderscore
           (str "Wallets_Billing;PayChat;B1;Acme;10;1,000;jan_25") true
           (store sampleTable noFaults)).
  - vm_compute. constructor.
  - vm_compute. reflexivity.
  - vm_compute. repeat constructor; discriminate.
Defined.

(** X14. The purge is not undone when the rows cannot be read: with
    [clearExisting] true, a purge the store carries out, and a text whose
    row loop throws, the run fails with the table already emptied of all
    rows but those under the nil UUID, and nothing is inserted. *)
Theorem purge_survives_parse_failure (csv : jsstring) (w : World) (e : exn) :
  faults w (length (calls w)) = None →
  EdgeFn.parseRecords csv = Throw e →
  EdgeFn.importCheckoutData csv true w =
    (Throw e, logCall (DeleteNeqId EdgeFn.nilUUID) (perform (DeleteNeqId EdgeFn.nilUUID) w))
  ∧ rows (EdgeFn.importCheckoutData csv true w).2
    = filter (λ r, id r = EdgeFn.nilUUID) (rows w).
Proof.
  intros Hok Hparse.
  assert (EdgeFn.importCheckoutData csv true w =
            (Throw e, logCall (DeleteNeqId EdgeFn.nilUUID)
                        (perform (DeleteNeqId EdgeFn.nilUUID) w))) as Hrun.
  { rewrite importCheckoutData_unfold.
    cbv beta iota delta [bind purge deleteNeqId lift ret].
    rewrite request_ok by done. by rewrite Hparse. }
  by rewrite Hrun.
Qed.

Lemma purge_survives_parse_failure_witness :
  EdgeFn.importCheckoutData scenarioUnderscore true (store sampleTable noFaults) =
    (Throw (undefinedRead "length"),
     logCall (DeleteNeqId EdgeFn.nilUUID)
       (perform (DeleteNeqId EdgeFn.nilUUID) (store sampleTable noFaults)))
  ∧ rows (EdgeFn.importCheckoutData scenarioUnderscore true
            (store sampleTable noFaults)).2
    = filter (λ r, id r = EdgeFn.nilUUID) (rows (store sampleTable noFaults)).
Proof.
  apply (purge_survives_parse_failure scenarioUnderscore (store sampleTable noFaults)
           (undefinedRead "length")).
  - reflexivity.
  - vm_compute. reflexivity.
Defined.

(** ** The two edge functions compared *)

Lemma fieldNamed_None_headers (name : jsstring) (headers : list jsstring)
    (k k' : nat) (values values' : list jsstring) :
  fieldNamed name headers k values = None → fieldNamed name headers k' values' = None.
Proof.
  revert k k'. induction headers as [|h headers IH]; intros k k'; simpl; [done|].
  destruct (fieldNamed name headers (S k) values) eqn:Hrest; [done|].
  rewrite (IH _ (S k') Hrest). by destruct (decide _).
Qed.

Lemma Refines_initial (headers : list jsstring) : Refines headers initialLoop [].
Proof.
  split; simpl; try done; intros x Hx; by apply elem_of_nil in Hx.
Qed.

Lemma Refines_step (headers : list jsstring) (line : jsstring)
    (st : EdgeFn.RowLoop) (all : list MerchantRecord) :
  Refines headers st all →
  match EdgeFn.importLine headers line st, ImportData.importLine headers line all with
  | Return st', Return all' => Refines headers st' all'
  | Throw _, Throw _ => True
  | _, _ => False
  end.
Proof.
  intros [Hsub Hseen Hkept Hcount Htpv Hfirst].
  unfold EdgeFn.importLine, ImportData.importLine, ImportData.parseMonthToDate.
  destruct (allEmpty _); [done|].
  destruct (negb _ || negb _); [done|].
  rewrite !buildRow_lookup by str_ne.
  destruct (EdgeFn.parseMonthToDate _) as [date|e]; simpl.
  2:{ by destruct (fieldNamed (str "tpv") _ _ _). }
  destruct (decide _) as [Hin|Hnin].
  - destruct (fieldNamed (str "tpv") headers 0 (split 59 line)) as [rawTpv|] eqn:Hraw.
    2:{ by apply (Htpv _ Hin) in Hraw. }
    simpl. split; simpl.
    + by apply sublist_inserts_r.
    + intros r [Hr| ->%list_elem_of_singleton]%elem_of_app; [auto|done].
    + done.
    + rewrite length_app. simpl. lia.
    + done.
    + intros i r Hi Hearlier.
      apply lookup_app_Some in Hi as [Hi|[Hge Hi]].
      * apply (Hfirst i r Hi). intros j r' Hj Hr'. apply (Hearlier j r' Hj).
        by apply lookup_app_l_Some.
      * apply list_lookup_singleton_Some in Hi as [Hi0 <-].
        destruct (Hkept _ Hin) as (r0 & Hr0 & Hkey).
        apply (λ H, elem_of_sublist _ _ _ H Hsub), list_elem_of_lookup in Hr0 as [j Hj].
        exfalso. apply (Hearlier j r0); [|by apply lookup_app_l_Some|done].
        apply lookup_lt_Some in Hj. lia.
  - destruct (fieldNamed (str "tpv") headers 0 (split 59 line)) as [rawTpv|] eqn:Hraw;
      [|done].
    simpl. split; simpl.
    + by apply sublist_app.
    + intros r [Hr| ->%list_elem_of_singleton]%elem_of_app;
        apply elem_of_setAdd; [right; auto|by left].
    + intros k [->|Hk]%elem_of_setAdd.
      * eexists. split; [apply elem_of_app; right; by apply list_elem_of_singleton|done].
      * destruct (Hkept k Hk) as (r & Hr & Hkey). exists r. split; [|done].
        apply elem_of_app. by left.
    + rewrite !length_app. simpl. lia.
    + intros k _ values Hnone.
      apply (fieldNamed_None_headers _ _ _ 0%nat _ (split 59 line)) in Hnone.
      by rewrite Hraw in Hnone.
    + intros i r Hi Hearlier. apply elem_of_app.
      apply lookup_app_Some in Hi as [Hi|[Hge Hi]].
      * left. apply (Hfirst i r Hi). intros j r' Hj Hr'. apply (Hearlier j r' Hj).
        by apply lookup_app_l_Some.
      * right. apply list_lookup_singleton_Some in Hi as [Hi0 <-].
        by apply list_elem_of_singleton.
Qed.

Lemma Refines_loop (headers dataLines : list jsstring)
    (st : EdgeFn.RowLoop) (all : list MerchantRecord) :
  Refines headers st all →
  match EdgeFn.importLines headers dataLines st,
        ImportData.importLines headers dataLines all with
  | Return st', Return all' => Refines headers st' all'
  | Throw _, Throw _ => True
  | _, _ => False
  end.
Proof.
  revert st all. induction dataLines as [|line ls IH]; intros st all Href; simpl; [done|].
  pose proof (Refines_step headers line st all Href) as Hstep.
  destruct (EdgeFn.importLine headers line st) as [st1|e],
           (ImportData.importLine headers line all) as [all1|e']; simpl; try done.
  by apply IH.
Qed.

Lemma dedup_refines_plain_import_lemma (csv : jsstring) :
  match EdgeFn.parseRecords csv, ImportData.parseRecords csv with
  | Return st, Return all => Refines (csvHeaders csv) st all
  | Throw _, Throw _ => True
  | _, _ => False
  end.
Proof.
  rewrite parseRecords_unfold, sibling_parseRecords_unfold.
  apply Refines_loop, Refines_initial.
Qed.

(** X15. The deduplicating edge function against the one without
    deduplication, on the same text: one throws exactly when the other
    does; otherwise the records it keeps are a sub-sequence, in the same
    order, of the records the other builds, every record the other builds
    has the key of a kept one, and the other builds as many records as this
    one keeps and skips together. *)
Theorem dedup_refines_plain_import (csv : jsstring) :
  match EdgeFn.parseRecords csv, ImportData.parseRecords csv with
  | Return st, Return all =>
      EdgeFn.records st `sublist_of` all
      ∧ (∀ r, r ∈ all → ∃ r', r' ∈ EdgeFn.records st ∧ recordKey r' = recordKey r)
      ∧ length all = (length (EdgeFn.records st) + EdgeFn.duplicates st)%nat
  | Throw _, Throw _ => True
  | _, _ => False
  end.
Proof.
  rewrite parseRecords_unfold, sibling_parseRecords_unfold.
  pose proof (Refines_loop (csvHeaders csv) (csvDataLines csv) initialLoop []
                (Refines_initial _)) as Hloop.
  destruct (EdgeFn.importLines _ _ _) as [st|e],
           (ImportData.importLines _ _ _) as [all|e']; try done.
  destruct Hloop as [Hsub Hseen Hkept Hcount _ _]. split_and!; [done| |done].
  intros r Hr. by apply Hkept, Hseen.
Qed.

(** X16. The first occurrence wins: of the records the plain import builds,
    one whose key no earlier record has is always among those the
    deduplicating import keeps (and, the kept keys being distinct, it is
    the only kept record with that key). *)
Theorem first_occurrence_kept (csv : jsstring) (st : EdgeFn.RowLoop)
    (all : list MerchantRecord) (i : nat) (r : MerchantRecord) :
  EdgeFn.parseRecords csv = Return st →
  ImportData.parseRecords csv = Return all →
  all !! i = Some r →
  (∀ j r', (j < i)%nat → all !! j = Some r' → recordKey r' ≠ recordKey r) →
  r ∈ EdgeFn.records st
  ∧ ∀ r', r' ∈ EdgeFn.records st → recordKey r' = recordKey r → r' = r.
Proof.
  rewrite parseRecords_unfold, sibling_parseRecords_unfold.
  intros Hst Hall Hi Hearlier.
  pose proof (Refines_loop (csvHeaders csv) (csvDataLines csv) initialLoop []
                (Refines_initial _)) as Hloop.
  pose proof (importLines_KeysDistinct _ _ _ _ Hst KeysDistinct_initial) as [Hnd _].
  rewrite Hst, Hall in Hloop. destruct Hloop as [_ _ _ _ _ Hfirst].
  pose proof (Hfirst i r Hi Hearlier) as Hr. split; [done|].
  intros r' Hr' Hkey.
  apply list_elem_of_lookup in Hr as [a Ha]. apply list_elem_of_lookup in Hr' as [b Hb].
  assert (a = b) as ->.
  { eapply NoDup_lookup; [exact Hnd|..]; rewrite list_lookup_fmap.
    - by rewrite Ha.
    - rewrite Hb. simpl. by rewrite Hkey. }
  congruence.
Qed.

Lemma first_occurrence_kept_witness :
  acmeRecord ∈ [acmeRecord; boltRecord]
  ∧ ∀ r', r' ∈ [acmeRecord; boltRecord] → recordKey r' = recordKey acmeRecord →
          r' = acmeRecord.
Proof.
  apply (first_occurrence_kept mixedCsv
           {| EdgeFn.records := [acmeRecord; boltRecord];
              EdgeFn.seenKeys :=
                setAdd (recordKey boltRecord) (setAdd (recordKey acmeRecord) ∅);
              EdgeFn.duplicates := 1 |}
           [acmeRecord;
            {| pillar := Some (str "Wallets_Billing"); product_type := Some (str "PayChat");
               brand_id := Some (str "B1"); merchant_name := Some (str "Acme");
               tpt := numberOfZ 11; tpv := numberOfZ 2000; date := str "2025-01-01" |};
            boltRecord] 0).
  - vm_compute. reflexivity.
  - vm_compute. reflexivity.
  - reflexivity.
  - intros j r' Hj. lia.
Defined.

Lemma sublist_same_length {A} (l k : list A) :
  l `sublist_of` k → (length k ≤ length l)%nat → l = k.
Proof.
  induction 1 as [|x l k _ IH|x l k Hsub IH]; simpl; intros Hlen; [done|..].
  - f_equal. apply IH. lia.
  - apply sublist_length in Hsub. lia.
Qed.

(** X17. On a text without repeated keys the deduplication changes
    nothing: when the records the plain import builds have distinct keys,
    the deduplicating import keeps exactly the same records and skips
    none. *)
Theorem no_repeats_no_skips (csv : jsstring) (all : list MerchantRecord) :
  ImportData.parseRecords csv = Return all →
  NoDup (recordKey <$> all) →
  ∃ st, EdgeFn.parseRecords csv = Return st
        ∧ EdgeFn.records st = all
        ∧ EdgeFn.duplicates st = 0%nat.
Proof.
  intros Hall Hnd. pose proof (dedup_refines_plain_import_lemma csv) as Href.
  rewrite Hall in Href.
  destruct (EdgeFn.parseRecords csv) as [st|e]; [|done].
  destruct Href as [Hsub _ _ Hcount _ Hfirst].
  assert (EdgeFn.records st = all) as Heq.
  { apply sublist_same_length; [done|].
    assert (all ⊆ EdgeFn.records st) as Hincl.
    { intros r [i Hi]%list_elem_of_lookup. apply (Hfirst i r Hi).
      intros j r' Hj Hr' Hkey.
      assert (j = i); [|lia].
      eapply NoDup_lookup; [exact Hnd|..]; rewrite list_lookup_fmap.
      - by rewrite Hr'.
      - rewrite Hi. simpl. by rewrite Hkey. }
    apply submseteq_length, NoDup_submseteq; [|done].
    by apply (NoDup_fmap_1 recordKey). }
  exists st. split_and!; [done..|]. rewrite Heq in Hcount. lia.
Qed.

Lemma no_repeats_no_skips_witness :
  ∃ st, EdgeFn.parseRecords
          (oneRow "Wallets_Billing;PayChat;B1;Acme;10;1,000;jan-25" ++ newline
             ++ str "Cards;PayChat;B3;Bolt;5;7;feb-2025" ++ newline
             ++ str "Cards;PayChat;B3;Bolt;6;8;mar-2025")
        = Return st
        ∧ EdgeFn.records st = [acmeRecord; boltRecord; marchRecord]
        ∧ EdgeFn.duplicates st = 0%nat.
Proof.
  apply (no_repeats_no_skips
           (oneRow "Wallets_Billing;PayChat;B1;Acme;10;1,000;jan-25" ++ newline
              ++ str "Cards;PayChat;B3;Bolt;5;7;feb-2025" ++ newline
              ++ str "Cards;PayChat;B3;Bolt;6;8;mar-2025")
           [acmeRecord; boltRecord; marchRecord]).
  - vm_compute. reflexivity.
  - apply (bool_decide_unpack (NoDup _)). vm_compute. reflexivity.
Defined.

(** ** More on dates *)

Lemma parseMonthToDate_other_year (m year mm : jsstring) :
  lookupTable monthTable (toLowerCase m) = Some mm →
  length year ≠ 2%nat →
  Forall (λ c, c ≠ 0x2D) year →
  EdgeFn.parseMonthToDate (Some (m ++ str "-" ++ year)) =
    Return (year ++ str "-" ++ mm ++ str "-01").
Proof.
  intros Hmonth Hlen Hyear.
  pose proof (toLowerCase_no_hyphen m (lookupTable_month_letters _ _ Hmonth)) as Hm.
  unfold EdgeFn.parseMonthToDate.
  change (m ++ str "-" ++ year) with (m ++ 0x2D :: year).
  rewrite split_app_sep by done. rewrite (split_no_sep _ year) by done.
  simpl. rewrite (proj2 (Nat.eqb_neq _ _) Hlen).
  unfold monthMap. by rewrite Hmonth.
Qed.

(** X18. On the server side a year part that is not exactly two code units
    long is copied as it is: for a recognised month in any letter case,
    [mon-2025] becomes [2025-mm-01] (and [mon-5] becomes [5-mm-01]). *)
Theorem other_year_lengths_kept (m year mm : jsstring) :
  lookupTable monthTable (toLowerCase m) = Some mm →
  length year ≠ 2%nat →
  Forall (λ c, c ≠ 0x2D) year →
  EdgeFn.parseMonthToDate (Some (m ++ str "-" ++ year)) =
    Return (year ++ str "-" ++ mm ++ str "-01").
Proof. apply parseMonthToDate_other_year. Qed.

Lemma other_year_lengths_kept_witness :
  EdgeFn.parseMonthToDate (Some (str "FEB" ++ str "-" ++ str "2025")) =
    Return (str "2025" ++ str "-" ++ str "02" ++ str "-01").
Proof.
  apply (other_year_lengths_kept (str "FEB") (str "2025") (str "02")).
  - reflexivity.
  - simpl. lia.
  - repeat constructor; discriminate.
Defined.

Lemma month_key_no_underscore (key mm : jsstring) :
  lookupTable monthTable key = Some mm → Forall (λ c, c ≠ 0x5F) key.
Proof.
  intros H. apply lookupTable_month_letters in H.
  eapply Forall_impl; [exact H|]. intros c Hc ->. lia.
Qed.

(** X19. The client-side path adds no century: for a month abbreviation
    written exactly as in the table (lower case) and any year text without
    an underscore, [mon_year] becomes [year-mm-01], whatever the length of
    the year. *)
Theorem client_date_copies_year (m year mm : jsstring) :
  lookupTable monthTable m = Some mm →
  Forall (λ c, c ≠ 0x5F) year →
  Client.parseMonthToDate (Some (m ++ str "_" ++ year)) =
    Return (year ++ str "-" ++ mm ++ str "-01").
Proof.
  intros Hmonth Hyear. unfold Client.parseMonthToDate.
  change (m ++ str "_" ++ year) with (m ++ 0x5F :: year).
  rewrite split_app_sep by by eapply month_key_no_underscore.
  rewrite (split_no_sep _ year) by done. simpl.
  unfold monthMap. by rewrite Hmonth.
Qed.

Lemma client_date_copies_year_witness :
  Client.parseMonthToDate (Some (str "mar" ++ str "_" ++ str "25")) =
    Return (str "25" ++ str "-" ++ str "03" ++ str "-01").
Proof.
  apply (client_date_copies_year (str "mar") (str "25") (str "03")).
  - reflexivity.
  - repeat constructor; discriminate.
Defined.

Lemma lookupTable_length (t : list (string * string)) (key v : jsstring) :
  lookupTable t key = Some v → ∃ k, k ∈ t.*1 ∧ str k = key.
Proof.
  induction t as [|[k0 v0] t IH]; simpl; [done|].
  destruct (decide (str k0 = key)) as [<-|_].
  - intros _. exists k0. split; [apply elem_of_cons; by left|done].
  - intros (k & Hk & <-)%IH. exists k. split; [apply elem_of_cons; by right|done].
Qed.

Lemma toLowerCase_length (s : jsstring) : length (toLowerCase s) = length s.
Proof. unfold toLowerCase. apply length_map. Qed.

Lemma parseMonthToDate_hyphen (m year mm : jsstring) :
  lookupTable monthTable (toLowerCase m) = Some mm →
  Forall (λ c, c ≠ 0x2D) year →
  EdgeFn.parseMonthToDate (Some (m ++ str "-" ++ year)) =
    Return ((if (length year =? 2)%nat then str "20" ++ year else year)
              ++ str "-" ++ mm ++ str "-01").
Proof.
  intros Hmonth Hyear.
  pose proof (toLowerCase_no_hyphen m (lookupTable_month_letters _ _ Hmonth)) as Hm.
  unfold EdgeFn.parseMonthToDate.
  change (m ++ str "-" ++ year) with (m ++ 0x2D :: year).
  rewrite split_app_sep by done. rewrite (split_no_sep _ year) by done.
  cbn [lookup list_lookup]. unfold monthMap. by rewrite Hmonth.
Qed.

(** X20. The month is looked up case-insensitively on the server side and
    case-sensitively on the client side: an abbreviation that is recognised
    only after lower-casing (such as [Jan] or [JAN]) gives the month number
    on the server, and the text [undefined] in its place on the client,
    whatever the year part is. *)
Theorem month_case_differs (m year mm : jsstring) :
  lookupTable monthTable (toLowerCase m) = Some mm →
  toLowerCase m ≠ m →
  Forall (λ c, c ≠ 0x2D ∧ c ≠ 0x5F) year →
  EdgeFn.parseMonthToDate (Some (m ++ str "-" ++ year)) =
    Return ((if (length year =? 2)%nat then str "20" ++ year else year)
              ++ str "-" ++ mm ++ str "-01")
  ∧ Client.parseMonthToDate (Some (m ++ str "_" ++ year)) =
    Return (year ++ str "-" ++ str "undefined" ++ str "-01").
Proof.
  intros Hmonth Hcase Hyear. split.
  { apply parseMonthToDate_hyphen; [done|].
    eapply Forall_impl; [exact Hyear|]. by intros c [??]. }
  pose proof (lookupTable_month_letters _ _ Hmonth) as Hletters.
  assert (Forall (λ c, c ≠ 0x5F) m) as Hm.
  { unfold toLowerCase in Hletters. rewrite Forall_map in Hletters.
    eapply Forall_impl; [exact Hletters|]. intros c Hc ->. simpl in Hc. lia. }
  assert (length m = 3%nat) as Hlen3.
  { rewrite <- toLowerCase_length.
    apply lookupTable_length in Hmonth as (k & Hk & <-).
    simpl in Hk. repeat (apply elem_of_cons in Hk as [->|Hk]; [done|]).
    by apply elem_of_nil in Hk. }
  assert (monthMap m = NoEntry) as Hentry.
  { unfold monthMap.
    destruct (lookupTable monthTable m) as [v|] eqn:Hown.
    { exfalso. apply Hcase.
      apply lookupTable_length in Hown as (k & Hk & <-).
      simpl in Hk. repeat (apply elem_of_cons in Hk as [->|Hk]; [done|]).
      by apply elem_of_nil in Hk. }
    destruct (lookupTable objectPrototypeFunctions m) as [v|] eqn:Hproto.
    { exfalso. apply lookupTable_length in Hproto as (k & Hk & <-).
      simpl in Hk. repeat (apply elem_of_cons in Hk as [->|Hk]; [done|]).
      by apply elem_of_nil in Hk. }
    destruct (decide (m = str "__proto__")) as [->|]; done. }
  unfold Client.parseMonthToDate.
  change (m ++ str "_" ++ year) with (m ++ 0x5F :: year).
  rewrite split_app_sep by done.
  rewrite (split_no_sep _ year) by (eapply Forall_impl; [exact Hyear|]; by intros c [??]).
  simpl. by rewrite Hentry.
Qed.

Lemma month_case_differs_witness :
  EdgeFn.parseMonthToDate (Some (str "Jan" ++ str "-" ++ str "25")) =
    Return (str "2025" ++ str "-" ++ str "01" ++ str "-01")
  ∧ Client.parseMonthToDate (Some (str "Jan" ++ str "_" ++ str "25")) =
    Return (str "25" ++ str "-" ++ str "undefined" ++ str "-01").
Proof.
  apply (month_case_differs (str "Jan") (str "25") (str "01")).
  - reflexivity.
  - discriminate.
  - repeat constructor; discriminate.
Defined.

(** X21. The client-side path never rejects a month token: a token without
    an underscore has no year part, and the date becomes the text
    [undefined-], the looked-up month (or [undefined]) and [-01], where the
    server-side path throws. *)
Theorem client_token_without_underscore (s : jsstring) :
  Forall (λ c, c ≠ 0x5F) s →
  Client.parseMonthToDate (Some s) =
    Return (str "undefined" ++ str "-" ++ interpEntry (monthMap s) ++ str "-01").
Proof.
  intros Hs. unfold Client.parseMonthToDate. by rewrite split_no_sep.
Qed.

Lemma client_token_without_underscore_witness :
  Client.parseMonthToDate (Some (str "jan-25")) =
    Return (str "undefined" ++ str "-" ++ interpEntry (monthMap (str "jan-25"))
              ++ str "-01").
Proof.
  apply (client_token_without_underscore (str "jan-25")).
  repeat constructor; discriminate.
Defined.

(** ** More on numbers *)

Lemma digit_not_space (c : N) : isDigit c = true → isWhiteSpace c = false.
Proof.
  unfold isDigit, isWhiteSpace. intros [H1 H2]%andb_true_iff.
  apply N.leb_le in H1, H2.
  repeat (apply orb_false_iff; split); try (apply N.eqb_neq; lia).
  apply andb_false_iff. left. apply N.leb_gt. lia.
Qed.

Lemma takeDigits_app (ds rest : jsstring) :
  Forall (λ c, isDigit c = true) ds →
  takeDigits rest = ([], rest) →
  takeDigits (ds ++ rest) = (ds, rest).
Proof.
  intros Hds Hrest. induction Hds as [|c ds Hc _ IH]; simpl; [done|].
  by rewrite Hc, IH.
Qed.

Lemma digitsValue_nonneg_from (ds : jsstring) (acc : Z) :
  (0 ≤ acc)%Z → Forall (λ c, isDigit c = true) ds →
  (0 ≤ fold_left (λ acc d, 10 * acc + (Z.of_N d - 48)) ds acc)%Z.
Proof.
  revert acc. induction ds as [|d ds IH]; intros acc Hacc Hds; simpl; [done|].
  inversion Hds as [|? ? Hd Hds']; subst. apply IH; [|done].
  unfold isDigit in Hd. apply andb_true_iff in Hd as [H1 _].
  apply N.leb_le in H1. lia.
Qed.

(** A run of digits, alone or followed by a comma, parses to the integer
    the digits spell: [parseFloat] stops at the comma. *)
Lemma parseFloatStr_digits (ds rest : jsstring) :
  ds ≠ [] →
  Forall (λ c, isDigit c = true) ds →
  rest = [] ∨ (∃ r, rest = 0x2C :: r) →
  parseFloatStr (ds ++ rest) = numberOfZ (digitsValue ds).
Proof.
  intros Hne Hds Hrest.
  assert (takeDigits rest = ([], rest)) as Htake.
  { by destruct Hrest as [->|[r ->]]. }
  destruct ds as [|c ds]; [done|].
  inversion Hds as [|? ? Hc Hds']; subst.
  unfold parseFloatStr. simpl trimStart. rewrite (digit_not_space c Hc).
  assert ((c =? 0x2D) = false) as -> by
    (unfold isDigit in Hc; apply andb_true_iff in Hc as [H1 H2];
     apply N.leb_le in H1, H2; apply N.eqb_neq; lia).
  assert ((c =? 0x2B) = false) as -> by
    (unfold isDigit in Hc; apply andb_true_iff in Hc as [H1 H2];
     apply N.leb_le in H1, H2; apply N.eqb_neq; lia).
  unfold unsignedDecimalLiteral.
  rewrite decide_False.
  2:{ simpl. intros [= ->]. done. }
  change (c :: ds ++ rest) with ((c :: ds) ++ rest).
  rewrite (takeDigits_app (c :: ds) rest Hds Htake).
  assert ((match rest with
           | 0x2E :: t => takeDigits t
           | _ => ([], rest)
           end) = ([], rest)) as -> by by destruct Hrest as [->|[r ->]].
  assert (exponentPart rest = 0%Z) as -> by by destruct Hrest as [->|[r ->]].
  pose proof (digitsValue_nonneg_from (c :: ds) 0 ltac:(done) Hds) as Hpos.
  fold (digitsValue (c :: ds)) in Hpos.
  change (length (@nil N)) with 0%nat. change (digitsValue []) with 0%Z.
  replace (digitsValue (c :: ds) * 10 ^ Z.of_nat 0 + 0)%Z with (digitsValue (c :: ds))
    by (simpl Z.of_nat; lia).
  unfold numberOfZ.
  destruct (digitsValue (c :: ds)) as [|p|p]; [done| |lia].
  unfold roundDecimal. change (0 - Z.of_nat 0)%Z with 0%Z. cbn [cond_Zopp].
  by replace (Z.pos p * 10 ^ 0)%Z with (Z.pos p) by lia.
Qed.

Lemma removeCommas_digits (raw : jsstring) :
  Forall (λ c, isDigit c = true ∨ c = 0x2C) raw →
  Forall (λ c, isDigit c = true) (removeCommas raw).
Proof.
  intros H. unfold removeCommas. induction H as [|c raw Hc _ IH]; [constructor|].
  rewrite filter_cons. destruct (decide (c ≠ 0x2C)) as [Hne|_]; [|done].
  constructor; [|done]. by destruct Hc.
Qed.

Lemma sibling_emits_amounts (headers : list jsstring) (line : jsstring)
    (r : MerchantRecord) :
  (∃ records, ImportData.importLine headers line records = Return (records ++ [r])) →
  ∃ rawTpv,
    fieldNamed (str "tpv") headers 0 (split 0x3B line) = Some rawTpv
    ∧ tpt r = orZero (parseFloat (fieldNamed (str "tpt") headers 0 (split 0x3B line)))
    ∧ tpv r = orZero (parseFloatStr (removeCommas rawTpv)).
Proof.
  intros (records & Hline). revert Hline. unfold ImportData.importLine.
  rewrite !buildRow_lookup by str_ne.
  destruct (allEmpty _); [by intros [= ?%app_singleton_ne]|].
  destruct (_ || _); [by intros [= ?%app_singleton_ne]|].
  destruct (fieldNamed (str "tpv") _ _ _) as [rawTpv|]; [|done].
  destruct (ImportData.parseMonthToDate _) as [date|]; simpl; [|done].
  intros [= <-%app_singleton_inv]. by exists rawTpv.
Qed.

(** X22. On the two edge functions, the deduplicating one and the one
    without deduplication, a [tpv] field written with thousands separators
    is read as the whole number: for a field made of digits and commas,
    with at least one digit, the stored [tpv] is the integer that the
    digits spell once the commas are dropped (rounded to a double). *)
Theorem server_tpv_ignores_commas (headers : list jsstring) (line raw : jsstring)
    (r : MerchantRecord) :
  emits ServerPath headers line r
  ∨ (∃ records, ImportData.importLine headers line records = Return (records ++ [r])) →
  fieldNamed (str "tpv") headers 0 (split 0x3B line) = Some raw →
  Forall (λ c, isDigit c = true ∨ c = 0x2C) raw →
  removeCommas raw ≠ [] →
  tpv r = orZero (numberOfZ (digitsValue (removeCommas raw))).
Proof.
  intros Hemit Hraw Hchars Hne.
  assert (tpv r = orZero (parseFloatStr (removeCommas raw))) as ->.
  { destruct Hemit as [(raw' & Hraw' & _ & ->)%server_emits_amounts
                      |(raw' & Hraw' & _ & ->)%sibling_emits_amounts];
      rewrite Hraw in Hraw'; by injection Hraw' as <-. }
  rewrite <- (app_nil_r (removeCommas raw)) at 1.
  rewrite parseFloatStr_digits; [done|done| |by left].
  by apply removeCommas_digits.
Qed.

Lemma server_tpv_ignores_commas_witness :
  (emits ServerPath (csvHeaders sampleHeader)
     (str "Wallets_Billing;PayChat;B1;Acme;10;1,000;jan-25") acmeRecord
   ∧ tpv acmeRecord = orZero (numberOfZ (digitsValue (removeCommas (str "1,000")))))
  ∧ (ImportData.importLine (csvHeaders sampleHeader)
       (str "Cards;PayChat;B3;Bolt;5;7,;feb-2025") [acmeRecord]
     = Return ([acmeRecord] ++ [boltRecord])
     ∧ tpv boltRecord = orZero (numberOfZ (digitsValue (removeCommas (str "7,"))))).
Proof.
  assert (emits ServerPath (csvHeaders sampleHeader)
            (str "Wallets_Billing;PayChat;B1;Acme;10;1,000;jan-25") acmeRecord) as Hserver.
  { exists initialLoop.
    exists {| EdgeFn.records := [acmeRecord];
              EdgeFn.seenKeys := setAdd (recordKey acmeRecord) ∅;
              EdgeFn.duplicates := 0 |}.
    split; vm_compute; reflexivity. }
  assert (ImportData.importLine (csvHeaders sampleHeader)
            (str "Cards;PayChat;B3;Bolt;5;7,;feb-2025") [acmeRecord]
          = Return ([acmeRecord] ++ [boltRecord])) as Hsibling.
  { vm_compute. reflexivity. }
  split; (split; [assumption|]).
  - apply (server_tpv_ignores_commas (csvHeaders sampleHeader)
             (str "Wallets_Billing;PayChat;B1;Acme;10;1,000;jan-25") (str "1,000")).
    + left. exact Hserver.
    + vm_compute. reflexivity.
    + repeat (apply List.Forall_cons; [first [left; reflexivity|right; reflexivity]|]).
      apply List.Forall_nil.
    + vm_compute. discriminate.
  - apply (server_tpv_ignores_commas (csvHeaders sampleHeader)
             (str "Cards;PayChat;B3;Bolt;5;7,;feb-2025") (str "7,")).
    + right. exists [acmeRecord]. exact Hsibling.
    + vm_compute. reflexivity.
    + repeat (apply List.Forall_cons; [first [left; reflexivity|right; reflexivity]|]).
      apply List.Forall_nil.
    + vm_compute. discriminate.
Defined.

(** X23. On the client-side path a thousands separator cuts the number
    short: when the [tpv] field starts with digits followed by a comma, the
    stored [tpv] is the integer spelt by the digits before the first comma,
    and everything after it is lost. *)
Theorem client_tpv_stops_at_comma (headers : list jsstring) (line ds rest : jsstring)
    (r : MerchantRecord) :
  emits ClientPath headers line r →
  fieldNamed (str "tpv") headers 0 (split 0x3B line) = Some (ds ++ 0x2C :: rest) →
  ds ≠ [] →
  Forall (λ c, isDigit c = true) ds →
  tpv r = orZero (numberOfZ (digitsValue ds)).
Proof.
  intros [_ ->]%client_emits_amounts Hraw Hne Hds.
  rewrite Hraw. unfold parseFloat. simpl interp.
  rewrite parseFloatStr_digits; [done..|]. right. by eexists.
Qed.

Lemma client_tpv_stops_at_comma_witness :
  S754_finite false 4503599627370496 (-52) = orZero (numberOfZ (digitsValue (str "1"))).
Proof.
  apply (client_tpv_stops_at_comma (csvHeaders sampleHeader)
           (str "Wallets_Billing;PayChat;B1;Acme;10;1,000;jan_25")
           (str "1") (str "000")
           {| pillar := Some (str "Wallets_Billing"); product_type := Some (str "PayChat");
              brand_id := Some (str "B1"); merchant_name := Some (str "Acme");
              tpt := numberOfZ 10; tpv := S754_finite false 4503599627370496 (-52);
              date := str "25-01-01" |}).
  - exists []. vm_compute. reflexivity.
  - vm_compute. reflexivity.
  - discriminate.
  - repeat constructor.
Defined.

(** ** Columns are found by name *)

Lemma split_join (sep : N) (parts : list jsstring) :
  parts ≠ [] →
  Forall (Forall (λ c, c ≠ sep)) parts →
  split sep (join [sep] parts) = parts.
Proof.
  intros Hne Hparts. induction Hparts as [|p parts Hp Hparts IH]; [done|].
  destruct parts as [|p' parts]; simpl.
  - by apply split_no_sep.
  - rewrite split_app_sep by done. f_equal. by apply IH.
Qed.

Lemma fieldAt_app (pre : list jsstring) (v : jsstring) (post : list jsstring) :
  fieldAt (pre ++ v :: post) (length pre) = trim v.
Proof.
  unfold fieldAt. rewrite list_lookup_middle by done. by destruct (trim v).
Qed.

(** With header names that are all different, a name reads the field that
    stands where its header stands. *)
Lemma fieldNamed_pairs (name : jsstring) (cols : list (jsstring * jsstring))
    (pre : list jsstring) (x : jsstring) :
  NoDup (trim <$> cols.*1) →
  fieldNamed name cols.*1 (length pre) (pre ++ cols.*2) = Some x
  ↔ ∃ h v, (h, v) ∈ cols ∧ trim h = name ∧ x = trim v.
Proof.
  revert pre x. induction cols as [|[h0 v0] cols IH]; intros pre x Hnd.
  { split; [done|]. intros (h & v & Hin & _). by apply elem_of_nil in Hin. }
  rewrite !fmap_cons in Hnd. rewrite !fmap_cons. cbn [fst snd fieldNamed] in *.
  apply NoDup_cons in Hnd as [Hfresh Hnd].
  assert (∀ x, fieldNamed name cols.*1 (S (length pre)) (pre ++ v0 :: cols.*2) = Some x
               ↔ ∃ h v, (h, v) ∈ cols ∧ trim h = name ∧ x = trim v) as IH'.
  { intros x'. specialize (IH (pre ++ [v0]) x' Hnd).
    rewrite length_app, <- app_assoc in IH. simpl in IH. by rewrite Nat.add_1_r in IH. }
  clear IH.
  destruct (fieldNamed name cols.*1 (S (length pre)) (pre ++ v0 :: cols.*2))
    as [y|] eqn:Hrest.
  - split.
    + intros [= ->]. destruct (proj1 (IH' x) eq_refl) as (h & v & Hin & Hh & Hv).
      exists h, v. split; [by apply elem_of_cons; right|done].
    + intros (h & v & [[= -> ->]|Hin]%elem_of_cons & Hh & ->).
      * destruct (proj1 (IH' y) eq_refl) as (h' & v' & Hin' & Hh' & _).
        exfalso. apply Hfresh. rewrite Hh, <- Hh'.
        apply list_elem_of_fmap. exists h'. split; [done|].
        apply list_elem_of_fmap. by exists (h', v').
      * apply IH'. eauto.
  - destruct (decide (trim h0 = name)) as [Hname|Hname].
    + rewrite fieldAt_app. split.
      * intros [= <-]. exists h0, v0. split; [by apply elem_of_cons; left|done].
      * intros (h & v & [[= -> ->]|Hin]%elem_of_cons & Hh & ->); [done|].
        assert (None = Some (trim v)) as Hbad; [|done].
        apply IH'. eauto.
    + split; [done|].
      intros (h & v & [[= -> ->]|Hin]%elem_of_cons & Hh & ->); [done|].
      apply IH'. eauto.
Qed.

Lemma fieldNamed_permutation (name : jsstring) (cols cols' : list (jsstring * jsstring)) :
  NoDup (trim <$> cols.*1) →
  cols ≡ₚ cols' →
  fieldNamed name cols.*1 0 cols.*2 = fieldNamed name cols'.*1 0 cols'.*2.
Proof.
  intros Hnd Hperm.
  assert (NoDup (trim <$> cols'.*1)) as Hnd' by by rewrite <- Hperm.
  pose proof (λ x, fieldNamed_pairs name cols [] x Hnd) as H.
  pose proof (λ x, fieldNamed_pairs name cols' [] x Hnd') as H'.
  simpl in H, H'.
  destruct (fieldNamed name cols.*1 0 cols.*2) as [x|] eqn:Hx.
  - symmetry. apply H'. destruct (proj1 (H x) eq_refl) as (h & v & Hin & Hrest).
    exists h, v. by rewrite <- Hperm.
  - destruct (fieldNamed name cols'.*1 0 cols'.*2) as [y|] eqn:Hy; [|done].
    destruct (proj1 (H' y) eq_refl) as (h & v & Hin & Hrest).
    apply (H y). exists h, v. by rewrite Hperm.
Qed.

Lemma forEachHeader_proto (headers : list jsstring) (index : nat)
    (values : list jsstring) (row : gmap (list N) (list N)) :
  forEachHeader headers index values row !! str "__proto__" = row !! str "__proto__".
Proof.
  revert index row. induction headers as [|h headers IH]; intros index row; simpl; [done|].
  rewrite IH. unfold rowSet. destruct (decide (trim h = str "__proto__")) as [|Hne]; [done|].
  by rewrite lookup_insert_ne.
Qed.

Lemma buildRow_permutation (cols cols' : list (jsstring * jsstring)) :
  NoDup (trim <$> cols.*1) →
  cols ≡ₚ cols' →
  buildRow cols.*1 cols.*2 = buildRow cols'.*1 cols'.*2.
Proof.
  intros Hnd Hperm. apply map_eq. intros name.
  destruct (decide (name = str "__proto__")) as [->|Hname].
  - unfold buildRow. by rewrite !forEachHeader_proto.
  - rewrite !buildRow_lookup by done. by apply fieldNamed_permutation.
Qed.

Lemma allEmpty_permutation (values values' : list jsstring) :
  values ≡ₚ values' → allEmpty values = allEmpty values'.
Proof.
  unfold allEmpty. induction 1 as [|v l l' _ IH|v v' l|l l' l'' _ IH1 _ IH2]; simpl.
  - done.
  - by rewrite IH.
  - by rewrite !andb_assoc, (andb_comm (_ || _) (_ || _)).
  - by rewrite IH1.
Qed.

(** X24. Columns are found by header name, not by position: when the
    header names are all different, moving the columns around (the header
    and the line in the same way) does not change what the line imports,
    on all three paths. *)
Theorem column_order_irrelevant (cols cols' : list (jsstring * jsstring)) :
  cols ≠ [] →
  NoDup (trim <$> cols.*1) →
  Forall (λ col, Forall (λ c, c ≠ 0x3B) col.2) cols →
  cols ≡ₚ cols' →
  let line := join [0x3B] cols.*2 in
  let line' := join [0x3B] cols'.*2 in
  (∀ st, EdgeFn.importLine cols.*1 line st = EdgeFn.importLine cols'.*1 line' st)
  ∧ (∀ records, ImportData.importLine cols.*1 line records
                = ImportData.importLine cols'.*1 line' records)
  ∧ (∀ records, Client.importLine cols.*1 line records
                = Client.importLine cols'.*1 line' records).
Proof.
  intros Hne Hnd Hsemi Hperm line line'.
  assert (split 0x3B line = cols.*2) as Hline.
  { apply split_join; [by destruct cols|]. by apply Forall_fmap. }
  assert (split 0x3B line' = cols'.*2) as Hline'.
  { apply split_join.
    - intros Hnil. apply fmap_nil_inv in Hnil. subst cols'.
      by apply Permutation_nil_r in Hperm.
    - apply Forall_fmap. by rewrite <- Hperm. }
  unfold EdgeFn.importLine, ImportData.importLine, Client.importLine.
  rewrite Hline, Hline'.
  rewrite (allEmpty_permutation cols.*2 cols'.*2) by by rewrite Hperm.
  by rewrite (buildRow_permutation cols cols' Hnd Hperm).
Qed.

Lemma column_order_irrelevant_witness :
  let cols := [(str "pillar", str "Cards"); (str "brand_id", str "B3");
               (str "tpv", str "7"); (str "month", str "feb-2025")] in
  let line := join [0x3B] cols.*2 in
  let line' := join [0x3B] (reverse cols).*2 in
  (∀ st, EdgeFn.importLine cols.*1 line st
         = EdgeFn.importLine (reverse cols).*1 line' st)
  ∧ (∀ records, ImportData.importLine cols.*1 line records
                = ImportData.importLine (reverse cols).*1 line' records)
  ∧ (∀ records, Client.importLine cols.*1 line records
                = Client.importLine (reverse cols).*1 line' records).
Proof.
  apply (column_order_irrelevant
           [(str "pillar", str "Cards"); (str "brand_id", str "B3");
            (str "tpv", str "7"); (str "month", str "feb-2025")]).
  - discriminate.
  - apply (bool_decide_unpack _). vm_compute. exact I.
  - apply (bool_decide_unpack _). vm_compute. exact I.
  - symmetry. apply reverse_Permutation.
Defined.

(** X25. When a header name is repeated, the last column of that name
    wins: the row object holds, under a name, the trimmed field of the last
    column whose header trims to that name (the empty string when the line
    is too short to have it). *)
Theorem last_column_of_a_name_wins (name : jsstring) (headers values : list jsstring)
    (i : nat) (h : jsstring) :
  name ≠ str "__proto__" →
  headers !! i = Some h →
  trim h = name →
  (∀ j h', (i < j)%nat → headers !! j = Some h' → trim h' ≠ name) →
  buildRow headers values !! name = Some (default [] (trim <$> values !! i)).
Proof.
  intros Hname Hi Hh Hlast. rewrite buildRow_lookup by done.
  rewrite (fieldNamed_last name headers i h 0 values Hi Hh Hlast). simpl.
  by rewrite fieldAt_trimmed, list_lookup_fmap.
Qed.

Lemma last_column_of_a_name_wins_witness :
  buildRow [str "tpt"; str "tpv"; str " tpt "] [str "1"; str "2"; str " 3"] !! str "tpt"
  = Some (default [] (trim <$> [str "1"; str "2"; str " 3"] !! 2%nat)).
Proof.
  apply (last_column_of_a_name_wins (str "tpt") [str "tpt"; str "tpv"; str " tpt "]
           [str "1"; str "2"; str " 3"] 2 (str " tpt ")).
  - discriminate.
  - reflexivity.
  - reflexivity.
  - intros j h' Hj Hh'. do 3 (destruct j as [|j]; [lia|]). discriminate Hh'.
Defined.

(** ** The handlers' answers *)

Lemma importCheckoutData_errors (csvContent clearExisting : jsonValue) (w w' : World)
    (result : EdgeFn.ImportResult) :
  EdgeFn.importCheckoutData csvContent clearExisting w = (Return result, w') →
  EdgeFn.errors result = 0%nat ∧ EdgeFn.cleared result = clearExisting.
Proof.
  rewrite importCheckoutData_any. cbv beta iota delta [bind lift ret].
  destruct (purge (toBoolean clearExisting) w) as [[[]|e] w1]; [|done].
  destruct (replaceReceiver _ csvContent) as [text|e]; [|done].
  destruct (EdgeFn.parseRecords text) as [st|e]; [|done].
  destruct (EdgeFn.insertBatches _ w1) as [[t|e] w2]; [|done].
  by intros [= <- <-].
Qed.

(** The handler, case by case. *)
Lemma serve_cases (req : EdgeFn.Request) (w : World) :
  EdgeFn.serve req w =
    if decide (EdgeFn.method req = str "OPTIONS") then
      ({| EdgeFn.status := 200; EdgeFn.body := EdgeFn.NoBody |}, w)
    else
      match EdgeFn.json req with
      | Throw e => ({| EdgeFn.status := 500; EdgeFn.body := failureBody e |}, w)
      | Return payload =>
          match EdgeFn.csvContent payload with
          | Some text =>
              if toBoolean text then
                match EdgeFn.importCheckoutData text
                        (default (JBool false) (EdgeFn.clearExisting payload)) w with
                | (Return result, w') =>
                    ({| EdgeFn.status := 200; EdgeFn.body := EdgeFn.Result result |}, w')
                | (Throw e, w') =>
                    ({| EdgeFn.status := 500; EdgeFn.body := failureBody e |}, w')
                end
              else
                ({| EdgeFn.status := 400;
                    EdgeFn.body := EdgeFn.ErrorOnly (str "CSV content is required") |}, w)
          | None =>
              ({| EdgeFn.status := 400;
                  EdgeFn.body := EdgeFn.ErrorOnly (str "CSV content is required") |}, w)
          end
      end.
Proof.
  unfold EdgeFn.serve. destruct (decide _); [done|].
  cbv beta iota delta [bind lift ret].
  destruct (EdgeFn.json req) as [payload|e]; [|done].
  destruct (EdgeFn.csvContent payload) as [text|]; [|done].
  destruct (toBoolean text); [|done].
  by destruct (EdgeFn.importCheckoutData text _ w) as [[result|e] w'].
Qed.

(** Takes the hypotheses of a case apart, rewrites with the equations of
    the case, and builds what the goal asks for from them. *)
Ltac settle :=
  intros;
  repeat match goal with
  | H : _ ∧ _ |- _ => destruct H
  | H : ∃ _, _ |- _ => destruct H
  | H : _ ∨ _ |- _ => destruct H
  end;
  simplify_eq/=;
  repeat match goal with
  | H1 : ?a = _, H2 : context [?a] |- _ => rewrite H1 in H2; simplify_eq/=
  end;
  try done;
  repeat match goal with
  | |- _ ∧ _ => split
  | |- ∃ _, _ => eexists
  | |- _ ∨ _ => first [left; by eauto|right]
  | |- Return _ = Return _ => reflexivity
  | H : ?a = _ |- ?a = _ => exact H
  | H : ?a = _ |- context [?a] => rewrite H; simpl
  | |- _ => done
  end.

(** X26. What the handler of the deduplicating edge function answers, and
    exactly when. It answers 200 without a body exactly to an OPTIONS
    request; 400 exactly when the body parses and its [csvContent] is
    missing or falsy; 200 with a result exactly when the body parses, its
    [csvContent] is truthy and the import returns that result; and 500,
    with a body that reports [imported] 0, [skipped] 0 and [errors] 1,
    exactly when the body does not parse or the import throws, whatever was
    inserted before the failure. The first two leave the store untouched;
    a result has [errors] 0 and repeats the [clearExisting] of the body
    ([false] when absent) as [cleared]. *)
Theorem handler_answers (req : EdgeFn.Request) (w : World) :
  let response := (EdgeFn.serve req w).1 in
  let options := EdgeFn.method req = str "OPTIONS" in
  let run payload text :=
    EdgeFn.importCheckoutData text
      (default (JBool false) (EdgeFn.clearExisting payload)) w in
  (response = {| EdgeFn.status := 200; EdgeFn.body := EdgeFn.NoBody |} ↔ options)
  ∧ (response = {| EdgeFn.status := 400;
                   EdgeFn.body := EdgeFn.ErrorOnly (str "CSV content is required") |} ↔
     ¬ options
     ∧ ∃ payload, EdgeFn.json req = Return payload
                  ∧ present (EdgeFn.csvContent payload) = false)
  ∧ (∀ result,
       response = {| EdgeFn.status := 200; EdgeFn.body := EdgeFn.Result result |} ↔
       ¬ options
       ∧ ∃ payload text,
           EdgeFn.json req = Return payload
           ∧ EdgeFn.csvContent payload = Some text ∧ toBoolean text = true
           ∧ (run payload text).1 = Return result)
  ∧ ((∃ error, response = {| EdgeFn.status := 500;
                             EdgeFn.body := EdgeFn.Failure error 0 0 1
                                              (str "Import failed") |}) ↔
     ¬ options
     ∧ ((∃ e, EdgeFn.json req = Throw e)
        ∨ ∃ payload text e,
            EdgeFn.json req = Return payload
            ∧ EdgeFn.csvContent payload = Some text ∧ toBoolean text = true
            ∧ (run payload text).1 = Throw e))
  ∧ (options ∨ EdgeFn.status response = 400%nat → (EdgeFn.serve req w).2 = w)
  ∧ (∀ result,
       EdgeFn.body response = EdgeFn.Result result →
       EdgeFn.errors result = 0%nat
       ∧ ∃ payload,
           EdgeFn.json req = Return payload
           ∧ EdgeFn.cleared result
             = default (JBool false) (EdgeFn.clearExisting payload)).
Proof.
  intros response options run. subst response options run.
  rewrite serve_cases. unfold failureBody.
  destruct (decide _) as [Hm|Hm];
    [|destruct (EdgeFn.json req) as [payload|e] eqn:Hjson;
      [destruct (EdgeFn.csvContent payload) as [text|] eqn:Hcsv;
       [destruct (toBoolean text) eqn:Htext;
        [destruct (EdgeFn.importCheckoutData text _ w) as [[result|e] w'] eqn:Hrun;
         [apply importCheckoutData_errors in Hrun as Herr|]|]|]|]];
    cbn [fst snd EdgeFn.status EdgeFn.body];
    (split_and!; [split; settle..|settle|settle]).
Qed.

(** X27. The edge function without deduplication never purges: whatever the
    request says (a [clearExisting] of any kind included) and however the
    store answers, its handler sends nothing but inserts, and sends those
    only for a [csvContent] that is a non-empty string: none for an OPTIONS
    request, a body that does not parse, or a [csvContent] that is missing,
    empty or not a string. *)
Theorem plain_handler_only_inserts (req : EdgeFn.Request) (w : World) :
  ∃ batches,
    calls (ImportData.serve req w).2 = calls w ++ (InsertRows <$> batches)
    ∧ (EdgeFn.method req = str "OPTIONS"
       ∨ (∀ text, csvText req = Some text → text = []) →
       batches = []).
Proof.
  unfold ImportData.serve, csvText. destruct (decide _) as [Hm|Hm].
  { exists []. by rewrite app_nil_r. }
  cbv beta iota delta [bind lift ret].
  destruct (EdgeFn.json req) as [payload|e]; simpl.
  2:{ exists []. by rewrite app_nil_r. }
  destruct (EdgeFn.csvContent payload) as [text|]; simpl.
  2:{ exists []. by rewrite app_nil_r. }
  destruct (toBoolean text) eqn:Htext; simpl.
  2:{ exists []. by rewrite app_nil_r. }
  unfold ImportData.importCheckoutData. cbv beta iota delta [bind lift ret].
  destruct (replaceReceiver _ text) as [csv|e] eqn:Hrecv; simpl.
  2:{ exists []. by rewrite app_nil_r. }
  destruct text as [|b|x|s|items|members]; try done. injection Hrecv as ->.
  destruct (ImportData.parseRecords csv) as [records|e]; simpl.
  2:{ exists []. by rewrite app_nil_r. }
  unfold EdgeFn.insertBatches.
  destruct (insertLoop_calls (length records) records 0 0 w) as (batches & Hc & _).
  destruct (EdgeFn.insertLoop (length records) records 0 0 w) as [[t|e] w2];
    simpl in *; exists batches; (split; [done|]);
    (intros [?|Hempty]; [done|]); specialize (Hempty csv eq_refl); by subst csv.
Qed.
